(** * daisy.tcp.tcp_client: the TCP client of the daisy scheduler

    A shallow embedding of [daisy/tcp/tcp_client.py] (class [TCPClient]) and
    the properties of its connection life cycle, message delivery and error
    propagation.

    The client lives on two threads: application threads call the public
    methods, and a tornado IOLoop thread runs the coroutines [_connect] and
    [_receive].  The embedding keeps one state for both and makes the
    interleaving explicit: a public method is one transition, one iteration
    of the receive loop is one transition ([reactor_step]), and a method that
    sleeps in a polling loop lets the reactor run until its condition holds. *)

From Stdlib Require Import List String Bool Arith ZArith QArith Lia.
From Stdlib Require Import DecimalString DecimalNat.
Import ListNotations.
Close Scope Q_scope.
Open Scope string_scope.
Open Scope list_scope.

(** ** Messages and exceptions *)

(** [daisy/tcp/internal_messages.py] declares the two control messages; every
    other [TCPMessage] is an application message, opaque to the client. *)
Inductive Message : Type :=
| AckClientDisconnect
| NotifyClientDisconnect
| AppMessage (payload : string).

(** [isinstance(message, AckClientDisconnect)] *)
Definition isinstance_AckClientDisconnect (message : Message) : bool :=
  match message with
  | AckClientDisconnect => true
  | _ => false
  end.

(** The exceptions that travel through the client: [NotConnected] of
    [daisy/tcp/exceptions.py], tornado's [StreamClosedError], any other
    [Exception] of the transport, and the [ValueError] of the standard
    library's [queue.Queue.get] for a negative timeout. *)
Inductive Exn : Type :=
| NotConnected
| StreamClosedError
| TransportError (reason : string)
| ValueError (reason : string).

Inductive LogRecord : Type :=
| Debug (text : string)
| Warn (text : string).

(** ** The collaborators *)

(** Modelled from the spec: [TCPStream] ([daisy/tcp/tcp_stream.py]) is not
    part of the sources.  It is the Message Stream of the spec: it sends one
    message atomically or fails, yields the next complete message in wire
    order or fails, and can be closed.  The object itself carries no data the
    client reads; what it does is recorded in the fields [wire_in],
    [wire_out], [close_calls], [send_fault] and [close_fault] of the state. *)
Record TCPStream : Type := mkTCPStream {
  peer_host : string;
  peer_port : Z
}.

(** What one [await self.stream._get_message()] yields. *)
Inductive Event : Type :=
| Received (message : Message)
| Failed (e : Exn).

(** What [await self.client.connect(host, port)] yields. *)
Inductive ConnectReply : Type :=
| Accepted
| Refused (e : Exn)
| Unanswered.

(** The [_receive] coroutine on the IOLoop. *)
Inductive Task : Type :=
| NotScheduled
| Scheduled
| Finished.

(** The server side and the network, as seen from one client: the script the
    client runs against. *)
Record Peer : Type := mkPeer {
  peer_reply : ConnectReply;
  peer_sends : list Event;
  peer_send_fault : option Exn;
  peer_close_fault : option Exn
}.

(** ** The state *)

Record State : Type := mkState {
  (* attributes of the TCPClient object *)
  host : string;
  port : Z;
  stream : option TCPStream;
  message_queue : list Message;
  exception_queue : list Exn;
  (* the IOLoop and its thread *)
  ioloop_running : bool;
  receive_task : Task;
  (* the connection *)
  connect_reply : ConnectReply;
  wire_in : list Event;
  wire_out : list Message;
  close_calls : nat;
  send_fault : option Exn;
  close_fault : option Exn;
  (* the logger *)
  log : list LogRecord
}.

Definition set_stream (v : option TCPStream) (st : State) : State :=
  mkState (host st) (port st) v (message_queue st) (exception_queue st)
    (ioloop_running st) (receive_task st) (connect_reply st) (wire_in st)
    (wire_out st) (close_calls st) (send_fault st) (close_fault st) (log st).

Definition set_message_queue (v : list Message) (st : State) : State :=
  mkState (host st) (port st) (stream st) v (exception_queue st)
    (ioloop_running st) (receive_task st) (connect_reply st) (wire_in st)
    (wire_out st) (close_calls st) (send_fault st) (close_fault st) (log st).

Definition set_exception_queue (v : list Exn) (st : State) : State :=
  mkState (host st) (port st) (stream st) (message_queue st) v
    (ioloop_running st) (receive_task st) (connect_reply st) (wire_in st)
    (wire_out st) (close_calls st) (send_fault st) (close_fault st) (log st).

Definition set_ioloop_running (v : bool) (st : State) : State :=
  mkState (host st) (port st) (stream st) (message_queue st)
    (exception_queue st) v (receive_task st) (connect_reply st) (wire_in st)
    (wire_out st) (close_calls st) (send_fault st) (close_fault st) (log st).

Definition set_receive_task (v : Task) (st : State) : State :=
  mkState (host st) (port st) (stream st) (message_queue st)
    (exception_queue st) (ioloop_running st) v (connect_reply st) (wire_in st)
    (wire_out st) (close_calls st) (send_fault st) (close_fault st) (log st).

Definition set_wire_in (v : list Event) (st : State) : State :=
  mkState (host st) (port st) (stream st) (message_queue st)
    (exception_queue st) (ioloop_running st) (receive_task st)
    (connect_reply st) v (wire_out st) (close_calls st) (send_fault st)
    (close_fault st) (log st).

Definition set_wire_out (v : list Message) (st : State) : State :=
  mkState (host st) (port st) (stream st) (message_queue st)
    (exception_queue st) (ioloop_running st) (receive_task st)
    (connect_reply st) (wire_in st) v (close_calls st) (send_fault st)
    (close_fault st) (log st).

Definition set_close_calls (v : nat) (st : State) : State :=
  mkState (host st) (port st) (stream st) (message_queue st)
    (exception_queue st) (ioloop_running st) (receive_task st)
    (connect_reply st) (wire_in st) (wire_out st) v (send_fault st)
    (close_fault st) (log st).

Definition set_faults (sf cf : option Exn) (st : State) : State :=
  mkState (host st) (port st) (stream st) (message_queue st)
    (exception_queue st) (ioloop_running st) (receive_task st)
    (connect_reply st) (wire_in st) (wire_out st) (close_calls st) sf cf
    (log st).

Definition set_log (v : list LogRecord) (st : State) : State :=
  mkState (host st) (port st) (stream st) (message_queue st)
    (exception_queue st) (ioloop_running st) (receive_task st)
    (connect_reply st) (wire_in st) (wire_out st) (close_calls st)
    (send_fault st) (close_fault st) v.

(** ** Calls: state, exceptions and blocking *)

(** A call returns a value, raises, or never returns ([Blocked]: it sleeps in
    a polling loop, or waits on a queue, and nothing that is still to happen
    on the connection will wake it). *)
Inductive Outcome (A : Type) : Type :=
| Return (a : A)
| Raise (e : Exn)
| Blocked.

Arguments Return {A} a.
Arguments Raise {A} e.
Arguments Blocked {A}.

Definition M (A : Type) : Type := State -> Outcome A * State.

Definition ret {A : Type} (a : A) : M A := fun st => (Return a, st).

Definition raise {A : Type} (e : Exn) : M A := fun st => (Raise e, st).

Definition bind {A B : Type} (c : M A) (k : A -> M B) : M B :=
  fun st =>
    match c st with
    | (Return a, st') => k a st'
    | (Raise e, st') => (Raise e, st')
    | (Blocked, st') => (Blocked, st')
    end.

Definition modify (f : State -> State) : M unit := fun st => (Return tt, f st).

Notation "x <- c1 ;; c2" := (bind c1 (fun x => c2))
  (at level 61, c1 at next level, right associativity).
Notation "c1 ;; c2" := (bind c1 (fun _ => c2))
  (at level 61, right associativity).

Definition logger_debug (text : string) : M unit :=
  modify (fun st => set_log (log st ++ [Debug text]) st).

Definition logger_warn (text : string) : M unit :=
  modify (fun st => set_log (log st ++ [Warn text]) st).

(** ** The stream operations *)

(** [self.stream.send_message(message)] *)
Definition stream_send_message (message : Message) : M unit :=
  fun st =>
    match send_fault st with
    | Some e => (Raise e, st)
    | None => (Return tt, set_wire_out (wire_out st ++ [message]) st)
    end.

(** [self.stream.close()] *)
Definition stream_close : M unit :=
  fun st =>
    let st' := set_close_calls (S (close_calls st)) st in
    match close_fault st with
    | Some e => (Raise e, st')
    | None => (Return tt, st')
    end.

(** ** The synchronous side *)

Definition is_connected (st : State) : bool :=
  match stream st with
  | Some _ => true
  | None => false
  end.

(** [connected]: [return self.stream is not None] *)
Definition connected : M bool := fun st => (Return (is_connected st), st).

(** [_check_for_errors]: [exception_queue.get(block=False)], raised if there
    is one. *)
Definition _check_for_errors : M unit :=
  fun st =>
    match exception_queue st with
    | exception :: rest => (Raise exception, set_exception_queue rest st)
    | [] => (Return tt, st)
    end.

(** [send_message] *)
Definition send_message (message : Message) : M unit :=
  _check_for_errors ;;
  c <- connected ;;
  if negb c then raise NotConnected
  else stream_send_message message.

(** ** The reactor side *)

Definition exception_queue_put (e : Exn) : M unit :=
  modify (fun st => set_exception_queue (exception_queue st ++ [e]) st).

Definition message_queue_put (message : Message) : M unit :=
  modify (fun st => set_message_queue (message_queue st ++ [message]) st).

(** [try: body finally: final; return].  The [return] inside [finally]
    discards an exception raised by [body]: the statement always completes. *)
Definition finally_return (body : M unit) (final : State -> State)
  : State -> State :=
  fun st => final (snd (body st)).

(** [_connect]: a coroutine of the IOLoop; it only runs while the loop does. *)
Definition _connect (st : State) : State :=
  if ioloop_running st then
    match connect_reply st with
    | Accepted => set_stream (Some (mkTCPStream (host st) (port st))) st
    | Refused e => set_exception_queue (exception_queue st ++ [e]) st
    | Unanswered => st
    end
  else st.

(** Whether the receive loop goes round again or the coroutine returns. *)
Inductive Control : Type :=
| Continue
| Exit.

(** The body of the [while] loop of [_receive], resumed with what
    [await self.stream._get_message()] yields. *)
Definition _receive_body (ev : Event) (st : State) : Control * State :=
  match ev with
  | Received message =>
      if isinstance_AckClientDisconnect message
      then (Exit, finally_return stream_close (set_stream None) st)
      else (Continue, snd (message_queue_put message st))
  | Failed e =>
      (Exit,
       finally_return (exception_queue_put e ;; stream_close)
         (set_stream None) st)
  end.

(** [_receive], the whole coroutine, run on the events that are there: it
    returns ([Finished]) or is left suspended in its [await]. *)
Fixpoint _receive (events : list Event) (st : State) : State :=
  if negb (is_connected st) then set_receive_task Finished st
  else
    match events with
    | [] => st
    | ev :: rest =>
        match _receive_body ev (set_wire_in rest st) with
        | (Exit, st') => set_receive_task Finished st'
        | (Continue, st') => _receive rest st'
        end
    end.

(** One turn of the IOLoop thread: the receive coroutine, if it is scheduled,
    tests its loop condition and handles the next event on the wire. *)
Definition reactor_step (st : State) : State :=
  if ioloop_running st then
    match receive_task st with
    | Scheduled =>
        if negb (is_connected st) then set_receive_task Finished st
        else
          match wire_in st with
          | [] => st
          | ev :: rest =>
              match _receive_body ev (set_wire_in rest st) with
              | (Exit, st') => set_receive_task Finished st'
              | (Continue, st') => st'
              end
          end
    | _ => st
    end
  else st.

Fixpoint reactor_steps (n : nat) (st : State) : State :=
  match n with
  | O => st
  | S n' => reactor_steps n' (reactor_step st)
  end.

(** ** Polling *)

(** A caller that sleeps until [cond] holds while the reactor runs.  Each
    turn of the reactor that changes anything consumes an event or ends the
    receive coroutine, so after one turn more than there are events on the
    wire the state no longer changes: a caller still waiting then waits for
    ever. *)
Fixpoint run_until (cond : State -> bool) (n : nat) (st : State)
  : Outcome unit * State :=
  if cond st then (Return tt, st)
  else
    match n with
    | O => (Blocked, st)
    | S n' => run_until cond n' (reactor_step st)
    end.

Definition await (cond : State -> bool) : M unit :=
  fun st => run_until cond (S (List.length (wire_in st))) st.

(** [c], and whatever its outcome the reactor then runs [f]. *)
Definition meanwhile {A : Type} (c : M A) (f : State -> State) : M A :=
  fun st => let (o, st') := c st in (o, f st').

Definition block {A : Type} : M A := fun st => (Blocked, st).

(** ** The blocking methods *)

(** [connect].  The callback [_connect] is completed by the reactor while the
    caller sleeps for the first time; when the caller never sleeps (the
    client is connected already, or an old error is pending) it is completed
    after the call. *)
Definition connect : M unit :=
  logger_debug "Connecting to server at %s:%d..." ;;
  c <- connected ;;
  (if c then ret tt
   else
     meanwhile _check_for_errors _connect ;;
     c' <- connected ;;
     if c' then ret tt
     else _check_for_errors ;; block) ;;
  logger_debug "...connected" ;;
  modify (set_receive_task Scheduled) ;;
  (if c then modify _connect else ret tt).

(** The first half of [disconnect], up to the notification. *)
Definition disconnect_notify : M unit :=
  logger_debug "Notifying server of disconnect..." ;;
  stream_send_message NotifyClientDisconnect.

(** The second half: [while self.connected(): time.sleep(.1)], then the
    IOLoop is stopped. *)
Definition disconnect_wait : M unit :=
  await (fun st => negb (is_connected st)) ;;
  logger_debug "Stopping IOLoop" ;;
  modify (set_ioloop_running false) ;;
  logger_debug "Disconnected".

(** [disconnect] *)
Definition disconnect : M unit :=
  c <- connected ;;
  if negb c then logger_warn "Called disconnect() on disconnected client"
  else disconnect_notify ;; disconnect_wait.

(** [__del__] *)
Definition __del__ : M unit :=
  logger_debug "Garbage collection called for TCPClient" ;;
  c <- connected ;;
  if c then disconnect else ret tt.

Definition timeout_negative (t : Q) : bool := negb (Qle_bool 0 t).

Definition has_message (st : State) : bool :=
  match message_queue st with
  | [] => false
  | _ :: _ => true
  end.

(** The head of the queue, or [None] where [queue.Empty] is caught. *)
Definition message_queue_take : M (option Message) :=
  fun st =>
    match message_queue st with
    | message :: rest => (Return (Some message), set_message_queue rest st)
    | [] => (Return None, st)
    end.

(** [self.message_queue.get(block=True, timeout=timeout)] with its
    [except queue.Empty: return None].  A negative timeout makes
    [queue.Queue.get] raise [ValueError].  Without a timeout the caller waits
    for the reactor to put a message.  With a timeout and an empty queue the
    call returns [None]: a message that arrives within the timeout is a turn
    of the reactor before the call. *)
Definition message_queue_get (timeout : option Q) : M (option Message) :=
  match timeout with
  | None => await has_message ;; message_queue_take
  | Some t =>
      if timeout_negative t
      then raise (ValueError "'timeout' must be a non-negative number")
      else message_queue_take
  end.

(** [get_message] *)
Definition get_message (timeout : option Q) : M (option Message) :=
  _check_for_errors ;;
  c <- connected ;;
  if negb c then raise NotConnected
  else message_queue_get timeout.

(** [__init__]: the attributes are set, the IOLoop thread is started, and
    the constructor calls [connect]. *)
Definition new_client (h : string) (p : Z) (peer : Peer) : State :=
  mkState h p None [] [] false NotScheduled (peer_reply peer)
    (peer_sends peer) [] 0 (peer_send_fault peer) (peer_close_fault peer) [].

Definition __init__ (h : string) (p : Z) (peer : Peer)
  : Outcome unit * State :=
  (logger_debug "Creating new IOLoop for TCPClient" ;;
   logger_debug "Starting io loop for TCPClient" ;;
   modify (set_ioloop_running true) ;;
   logger_debug "Creating new TCP client..." ;;
   connect) (new_client h p peer).

(** Calling [get_message] [n] times; the messages returned, in order, until
    a call fails or returns nothing. *)
Fixpoint get_messages (timeout : option Q) (n : nat) (st : State)
  : list Message * State :=
  match n with
  | O => ([], st)
  | S n' =>
      match get_message timeout st with
      | (Return (Some message), st') =>
          let (ms, st'') := get_messages timeout n' st' in
          (message :: ms, st'')
      | (_, st') => ([], st')
      end
  end.

(** ** Scripts used as examples *)

Definition m1 : Message := AppMessage "m1".
Definition m2 : Message := AppMessage "m2".
Definition m3 : Message := AppMessage "m3".

(** A server that accepts the connection and then sends [events]. *)
Definition serving (events : list Event) : Peer :=
  mkPeer Accepted events None None.

(** A client constructed against such a server. *)
Definition client_of (events : list Event) : State :=
  snd (__init__ "localhost" 9000 (serving events)).

(** A server that refuses the connection. *)
Definition refusing : Peer :=
  mkPeer (Refused (TransportError "connection refused")) [] None None.

(** Scenario B of the spec: three messages, then the acknowledgement. *)
Definition scenario_B : list Event :=
  [Received m1; Received m2; Received m3; Received AckClientDisconnect].

(** Concrete clients: connected with nothing on the wire; with a failing
    send; left by a refused connection; with an error pending; and after a
    [disconnect] that the server acknowledged. *)
Definition client_idle : State := Eval vm_compute in client_of [].

Definition client_send_fault : State :=
  Eval vm_compute in set_faults (Some StreamClosedError) None (client_of []).

Definition client_refused : State :=
  Eval vm_compute in snd (__init__ "localhost" 9000 refusing).

Definition client_pending : State :=
  Eval vm_compute in
    set_exception_queue [StreamClosedError]
      (reactor_step (client_of [Received AckClientDisconnect])).

Definition client_closed : State :=
  Eval vm_compute in
    snd (disconnect (client_of [Received AckClientDisconnect])).

Definition disconnect_warning : LogRecord :=
  Warn "Called disconnect() on disconnected client".

(** The state [disconnect] leaves on [client_idle] when it has sent its
    notification and the server has not answered yet. *)
Definition client_notified : State :=
  Eval vm_compute in snd (disconnect_notify client_idle).

(** ** The life of a client *)

(** What can happen to a constructed client: calls of the public methods,
    turns of the IOLoop thread, and changes in how the stream behaves. *)
Inductive Action : Type :=
| Call_connected
| Call_send_message (message : Message)
| Call_get_message (timeout : option Q)
| Call_disconnect
| Call_del
| Turn
| Faults (sf cf : option Exn).

Definition perform (a : Action) (st : State) : State :=
  match a with
  | Call_connected => snd (connected st)
  | Call_send_message message => snd (send_message message st)
  | Call_get_message timeout => snd (get_message timeout st)
  | Call_disconnect => snd (disconnect st)
  | Call_del => snd (__del__ st)
  | Turn => reactor_step st
  | Faults sf cf => set_faults sf cf st
  end.

(** The states of a client whose constructor has returned. *)
Inductive reachable : State -> Prop :=
| reach_init h p peer st :
    __init__ h p peer = (Return tt, st) -> reachable st
| reach_step a st :
    reachable st -> reachable (perform a st).

(** What holds in all of them: with a stream there is no error pending, the
    receive loop is scheduled on a running IOLoop and the stream was never
    closed; without a stream the receive loop has returned, the stream was
    closed once, and at most one error is pending. *)
Definition lifecycle (st : State) : Prop :=
  match stream st with
  | Some _ =>
      exception_queue st = [] /\ receive_task st = Scheduled /\
      close_calls st = 0 /\ ioloop_running st = true
  | None =>
      receive_task st = Finished /\ close_calls st = 1 /\
      List.length (exception_queue st) <= 1
  end.

(** The messages among [events] that the receive loop puts on the message
    queue. *)
Fixpoint enqueued (events : list Event) : list Message :=
  match events with
  | [] => []
  | Received message :: rest =>
      if isinstance_AckClientDisconnect message then enqueued rest
      else message :: enqueued rest
  | Failed _ :: rest => enqueued rest
  end.

(** A schedule of actions; the messages that its [get_message] calls return,
    in the order of the calls. *)
Fixpoint run (schedule : list Action) (st : State) : list Message * State :=
  match schedule with
  | [] => ([], st)
  | Call_get_message timeout :: rest =>
      match get_message timeout st with
      | (Return (Some message), st') =>
          let (ms, st'') := run rest st' in (message :: ms, st'')
      | (_, st') => run rest st'
      end
  | a :: rest => run rest (perform a st)
  end.

Definition timeout_valid (timeout : option Q) : bool :=
  match timeout with
  | None => true
  | Some t => negb (timeout_negative t)
  end.

Definition no_ack (ms : list Message) : bool :=
  forallb (fun m => negb (isinstance_AckClientDisconnect m)) ms.

(** Every later [send_message] and [get_message] raises [NotConnected] and
    leaves the state as it is. *)
Definition reports_not_connected (st : State) : Prop :=
  (forall message, send_message message st = (Raise NotConnected, st)) /\
  (forall timeout, get_message timeout st = (Raise NotConnected, st)).

(** The next [send_message] or [get_message] raises [e] and takes it off the
    exception queue, and the calls after it raise [NotConnected]. *)
Definition surfaces_once (e : Exn) (st : State) : Prop :=
  (forall message, exists st',
     send_message message st = (Raise e, st') /\
     exception_queue st' = [] /\ reports_not_connected st') /\
  (forall timeout, exists st',
     get_message timeout st = (Raise e, st') /\
     exception_queue st' = [] /\ reports_not_connected st').

(** A connected client whose stream is about to fail. *)
Definition client_failing : State :=
  Eval vm_compute in client_of [Failed StreamClosedError].

(** A connected client about to receive the acknowledgement. *)
Definition client_acked : State :=
  Eval vm_compute in client_of [Received m1; Received AckClientDisconnect].

(** From [st] to [st'] the reactor has taken [consumed] off the wire, and the
    messages returned to callers ([delivered]) followed by those still on the
    message queue are the queue of [st] followed by what the receive loop
    queued from [consumed]: nothing lost, nothing twice, nothing out of
    order. *)
Definition delivers (st : State) (delivered : list Message) (st' : State)
  : Prop :=
  exists consumed,
    wire_in st = consumed ++ wire_in st' /\
    message_queue st ++ enqueued consumed = delivered ++ message_queue st'.

(** Scenario B when the reactor has handled all four events before the
    application calls [get_message]. *)
Definition client_B_closed : State :=
  Eval vm_compute in reactor_steps 4 (client_of scenario_B).

(** Calling [send_message] for each message of a list, until a call does
    not return. *)
Fixpoint send_messages (ms : list Message) (st : State)
  : Outcome unit * State :=
  match ms with
  | [] => (Return tt, st)
  | message :: rest =>
      match send_message message st with
      | (Return _, st') => send_messages rest st'
      | (o, st') => (o, st')
      end
  end.

(** The events on which the receive loop returns. *)
Definition ends_loop (ev : Event) : bool :=
  match ev with
  | Received message => isinstance_AckClientDisconnect message
  | Failed _ => true
  end.

(** The error the receive loop records for such an event, if any. *)
Definition recorded (ev : Event) : list Exn :=
  match ev with
  | Received _ => []
  | Failed e => [e]
  end.

(** A connected client with a message on its queue and one more on the
    wire, and one that lost its connection with a message on its queue. *)
Definition client_waiting : State :=
  Eval vm_compute in reactor_step (client_of [Received m1; Received m2]).

Definition client_lost : State :=
  Eval vm_compute in
    reactor_steps 2 (client_of [Received m1; Failed StreamClosedError]).

(** From [st] to [st'] there is no stream, and nothing was received, queued,
    written or closed, and the IOLoop was left as it was. *)
Definition frozen (st st' : State) : Prop :=
  stream st' = None /\
  message_queue st' = message_queue st /\
  wire_in st' = wire_in st /\
  wire_out st' = wire_out st /\
  close_calls st' = close_calls st /\
  ioloop_running st' = ioloop_running st.

(** ** [get_message] while the receive loop is at work

    [self.message_queue.get(block=True, timeout=timeout)] puts the calling
    thread to sleep while the queue is empty, and the IOLoop thread goes on
    in the meantime.  How far it gets is not for the caller to decide, so it
    is a parameter of the call: [turns] is the number of iterations the
    receive loop completes before the timeout expires, and [later] the
    number it completes between the moment the queue holds a message for the
    caller and the moment the caller takes it.  A caller without a timeout
    sleeps for as long as it takes.  [get_message] above is the call with a
    receive loop that does no more than it must: [turns] and [later] are 0. *)

(** [threading.TIMEOUT_MAX]: the lock on which the queue sleeps takes no
    longer timeout and raises [OverflowError], which is not among the
    exceptions above.  The value depends on the platform; 4294967 seconds is
    accepted by all of them. *)
Definition TIMEOUT_MAX : Q := 4294967%Q.

Definition timeout_accepted (t : Q) : bool := Qle_bool t TIMEOUT_MAX.

(** [self.message_queue.get(block=True, timeout=timeout)] with its
    [except queue.Empty: return None], for a timeout that the lock accepts.
    The timeout is tested first.  A caller whose timeout expires gets
    [None]; a caller that finds or is given a message takes the head of the
    queue as it is by then. *)
Definition message_queue_get_within (turns later : nat) (timeout : option Q)
  : M (option Message) :=
  match timeout with
  | None =>
      await has_message ;; modify (reactor_steps later) ;; message_queue_take
  | Some t =>
      if timeout_negative t
      then raise (ValueError "'timeout' must be a non-negative number")
      else
        fun st =>
          match run_until has_message turns st with
          | (Return _, st') => message_queue_take (reactor_steps later st')
          | (_, st') => (Return None, st')
          end
  end.

(** [get_message] *)
Definition get_message_within (turns later : nat) (timeout : option Q)
  : M (option Message) :=
  _check_for_errors ;;
  c <- connected ;;
  if negb c then raise NotConnected
  else message_queue_get_within turns later timeout.

(** A connected client with two messages on the wire. *)
Definition client_two : State :=
  Eval vm_compute in client_of [Received m1; Received m2].

(** * daisy.persistence.mongodb_graph_provider

    The parts of [daisy/persistence/mongodb_graph_provider.py] that compute:
    the key removal and the position query of [MongoDbGraphProvider], and
    [write_nodes], [write_edges] and [__contains] of [MongoDbSubGraph].
    What pymongo, networkx and [daisy.roi] do is taken as given: a graph is
    the list of its nodes and edges with their data, a region of interest is
    what its methods answer, and a database call is recorded and answered by
    a parameter. *)

Module MongoDb.

(** Python values as far as documents hold them. *)
#[warnings="-register-all"]
Inductive Value : Type :=
| VInt (n : Z)
| VStr (s : string)
| VList (items : list Value)
| VDict (entries : list (string * Value)).

(** A [dict] with string keys, in insertion order. *)
Definition Dict : Type := list (string * Value).

(** [d[key]], or [None] where Python raises [KeyError]. *)
Fixpoint dict_get (key : string) (d : Dict) : option Value :=
  match d with
  | [] => None
  | (k, v) :: rest => if String.eqb key k then Some v else dict_get key rest
  end.

(** [key in d] *)
Definition dict_contains (key : string) (d : Dict) : bool :=
  match dict_get key d with
  | Some _ => true
  | None => false
  end.

(** [d[key] = value]: the value of an old key is replaced where it is, a
    new key goes to the end. *)
Fixpoint dict_set (key : string) (value : Value) (d : Dict) : Dict :=
  match d with
  | [] => [(key, value)]
  | (k, v) :: rest =>
      if String.eqb key k then (k, value) :: rest
      else (k, v) :: dict_set key value rest
  end.

(** [d.update(data)] *)
Definition dict_update (d data : Dict) : Dict :=
  fold_left (fun acc kv => dict_set (fst kv) (snd kv) acc) data d.

(** [del d[key]], or [None] where Python raises [KeyError]. *)
Fixpoint dict_del (key : string) (d : Dict) : option Dict :=
  match d with
  | [] => None
  | (k, v) :: rest =>
      if String.eqb key k then Some rest
      else option_map (cons (k, v)) (dict_del key rest)
  end.

(** A dict display or comprehension: the items are set one after another. *)
Definition dict_of (items : list (string * Value)) : Dict :=
  dict_update [] items.

(** [key in keys] for a list of strings. *)
Definition mem (key : string) (keys : list string) : bool :=
  existsb (String.eqb key) keys.

Inductive PyError : Type :=
| AssertionError (message : string)
| RuntimeError (message : string)
| KeyError (key : Value)
| BulkWriteError (details : string)
| AttributeError (message : string)
| TypeError (message : string)
| OtherError (name : string).

Inductive Res (A : Type) : Type :=
| Ok (a : A)
| Err (e : PyError).

Arguments Ok {A} a.
Arguments Err {A} e.

Inductive LogEntry : Type :=
| LogDebug (text : string)
| LogError (text : string).

(** ** [MongoDbGraphProvider] *)

(** [__remove_keys]: [del dictionary[key]] for each key.  The dictionary is
    changed in place, so the keys deleted before a [KeyError] stay deleted:
    the result is the dictionary as the call leaves it, and the error if it
    raised. *)
Fixpoint __remove_keys (dictionary : Dict) (keys : list string)
  : Dict * option PyError :=
  match keys with
  | [] => (dictionary, None)
  | key :: rest =>
      match dict_del key dictionary with
      | None => (dictionary, Some (KeyError (VStr key)))
      | Some dictionary' => __remove_keys dictionary' rest
      end
  end.

(** A region of interest, as its methods answer: [get_begin()],
    [get_end()], and [contains(Coordinate(position))] for the value of a
    position attribute. *)
Record Roi : Type := mkRoi {
  get_begin : list Z;
  get_end : list Z;
  contains : Value -> bool
}.

(** [position_attribute]: one string, or a list of strings. *)
Inductive PositionAttribute : Type :=
| Single (name : string)
| Several (names : list string).

Fixpoint enumerate_from {A : Type} (d : nat) (l : list A) : list (nat * A) :=
  match l with
  | [] => []
  | a :: rest => (d, a) :: enumerate_from (S d) rest
  end.

(** ['position.%d' % d] *)
Definition position_key (d : nat) : string :=
  String.append "position." (NilEmpty.string_of_uint (Nat.to_uint d)).

(** [{'$gte': b, '$lt': e}] *)
Definition range_query (b e : Z) : Value :=
  VDict (dict_of [("$gte", VInt b); ("$lt", VInt e)]).

(** [__pos_query] *)
Definition __pos_query (position_attribute : PositionAttribute) (roi : Roi)
  : Dict :=
  let begin_ := get_begin roi in
  let end_ := get_end roi in
  match position_attribute with
  | Several names =>
      dict_of
        (map (fun kbe => (fst kbe, range_query (fst (snd kbe)) (snd (snd kbe))))
           (combine names (combine begin_ end_)))
  | Single _ =>
      dict_of
        (map (fun dbe =>
                (position_key (fst dbe),
                 range_query (fst (snd dbe)) (snd (snd dbe))))
           (enumerate_from 0 (combine begin_ end_)))
  end.

(** ** [MongoDbSubGraph] *)

(** The graph part is what networkx holds: the nodes with their data in
    iteration order ([self.nodes(data=True)]) and the edges with theirs
    ([self.edges(data=True)]). *)
Record MongoDbSubGraph : Type := mkSubGraph {
  mode : string;
  roi : Roi;
  graph_nodes : list (Z * Dict);
  graph_edges : list (Z * Z * Dict)
}.

(** [self.node[node]] *)
Fixpoint node_data (node : Z) (nodes : list (Z * Dict)) : option Dict :=
  match nodes with
  | [] => None
  | (n, data) :: rest => if Z.eqb node n then Some data else node_data node rest
  end.

(** [__contains] *)
Definition __contains (self : MongoDbSubGraph) (r : Roi) (node : Z)
  : Res bool :=
  match node_data node (graph_nodes self) with
  | None => Err (KeyError (VInt node))
  | Some data =>
      match dict_get "position" data with
      | None => Ok false
      | Some position => Ok (contains r position)
      end
  end.

(** [not attributes] *)
Definition no_attributes (attributes : option (list string)) : bool :=
  match attributes with
  | None => true
  | Some [] => true
  | Some (_ :: _) => false
  end.

(** The document of a node or an edge: the identifying entries, then the
    data, all of it or the attributes asked for. *)
Definition document (attributes : option (list string)) (base data : Dict)
  : Dict :=
  if no_attributes attributes then dict_update base data
  else
    fold_left
      (fun doc kv =>
         if mem (fst kv) (match attributes with Some l => l | None => [] end)
         then dict_set (fst kv) (snd kv) doc
         else doc)
      data base.

(** The loop of [write_nodes]. *)
Fixpoint node_documents (self : MongoDbSubGraph) (r : Roi)
  (attributes : option (list string)) (nodes : list (Z * Dict))
  : Res (list Dict) :=
  match nodes with
  | [] => Ok []
  | (node_id, data) :: rest =>
      match __contains self r node_id with
      | Err e => Err e
      | Ok false => node_documents self r attributes rest
      | Ok true =>
          match node_documents self r attributes rest with
          | Err e => Err e
          | Ok docs =>
              Ok (document attributes [("id", VInt node_id)] data :: docs)
          end
      end
  end.

(** The loop of [write_edges]. *)
Fixpoint edge_documents (self : MongoDbSubGraph) (r : Roi)
  (attributes : option (list string)) (edges : list (Z * Z * Dict))
  : Res (list Dict) :=
  match edges with
  | [] => Ok []
  | (u0, v0, data) :: rest =>
      let u := Z.min u0 v0 in
      let v := Z.max u0 v0 in
      match __contains self r u with
      | Err e => Err e
      | Ok false => edge_documents self r attributes rest
      | Ok true =>
          match edge_documents self r attributes rest with
          | Err e => Err e
          | Ok docs =>
              Ok (document attributes [("u", VInt u); ("v", VInt v)] data
                    :: docs)
          end
      end
  end.

(** The collections the write methods call. *)
Inductive Target : Type :=
| nodes_collection
| edges_collection.

Record UpdateOne : Type := mkUpdateOne {
  update_filter : Dict;
  update_document : Dict;
  upsert : bool
}.

Inductive DbCall : Type :=
| insert_many (target : Target) (documents : list Dict)
| bulk_write (target : Target) (requests : list UpdateOne).

(** What a write method does: how it ends, the database calls it made and
    what it logged. *)
Record Written : Type := mkWritten {
  result : Res unit;
  calls : list DbCall;
  logged : list LogEntry
}.

(** The [try] block of both methods: the call, and for a [BulkWriteError]
    its details logged before it is raised again. *)
Definition attempt (db : DbCall -> option PyError) (call : DbCall)
  (log_before : list LogEntry) : Written :=
  match db call with
  | None => mkWritten (Ok tt) [call] log_before
  | Some (BulkWriteError details) =>
      mkWritten (Err (BulkWriteError details)) [call]
        (log_before ++ [LogError details])
  | Some e => mkWritten (Err e) [call] log_before
  end.

Definition node_update (upsert_ : bool) (node : Dict) : UpdateOne :=
  mkUpdateOne
    (dict_of (match dict_get "id" node with
              | Some i => [("id", i)]
              | None => []
              end))
    node upsert_.

(** [write_nodes] *)
Definition write_nodes (self : MongoDbSubGraph) (roi_ : option Roi)
  (attributes : option (list string))
  (fail_if_exists fail_if_not_exists delete : bool)
  (db : DbCall -> option PyError) : Written :=
  if delete then
    mkWritten (Err (AssertionError "Delete not implemented")) [] []
  else if fail_if_exists && fail_if_not_exists then
    mkWritten
      (Err (AssertionError
              "Cannot have fail_if_exists and fail_if_not_exists at the same time"))
      [] []
  else if String.eqb (mode self) "r" then
    mkWritten (Err (RuntimeError "Trying to write to read-only DB")) [] []
  else
    let r := match roi_ with None => roi self | Some r => r end in
    let log0 := [LogDebug "Writing all nodes"] in
    match node_documents self r attributes (graph_nodes self) with
    | Err e => mkWritten (Err e) [] log0
    | Ok [] => mkWritten (Ok tt) [] log0
    | Ok nodes =>
        if fail_if_exists then
          attempt db (insert_many nodes_collection nodes) log0
        else if fail_if_not_exists then
          attempt db
            (bulk_write nodes_collection (map (node_update false) nodes)) log0
        else
          attempt db
            (bulk_write nodes_collection (map (node_update true) nodes)) log0
    end.

(** [self.edges.bulk_write]: [self.edges] is the edge view of the networkx
    graph, the object that the loop of [write_edges] calls to iterate the
    edges, not [self.edges_collection]; it has no [bulk_write], and the
    attribute lookup raises before the requests are built. *)
Definition edges_bulk_write : PyError :=
  AttributeError "'EdgeView' object has no attribute 'bulk_write'".

(** [write_edges].  Only [insert_many] is called on the edges collection;
    the two other branches raise the [AttributeError] above, which
    [except BulkWriteError] does not catch, and reach no database. *)
Definition write_edges (self : MongoDbSubGraph) (roi_ : option Roi)
  (attributes : option (list string))
  (fail_if_exists fail_if_not_exists delete : bool)
  (db : DbCall -> option PyError) : Written :=
  if delete then
    mkWritten (Err (AssertionError "Delete not implemented")) [] []
  else if fail_if_exists && fail_if_not_exists then
    mkWritten
      (Err (AssertionError
              "Cannot have fail_if_exists and fail_if_not_exists at the same time"))
      [] []
  else if String.eqb (mode self) "r" then
    mkWritten (Err (RuntimeError "Trying to write to read-only DB")) [] []
  else
    let r := match roi_ with None => roi self | Some r => r end in
    let log0 := [LogDebug "Writing edges in %s"] in
    match edge_documents self r attributes (graph_edges self) with
    | Err e => mkWritten (Err e) [] log0
    | Ok [] =>
        mkWritten (Ok tt) [] (log0 ++ [LogDebug "No edges to insert in %s"])
    | Ok edges =>
        if fail_if_exists then
          attempt db (insert_many edges_collection edges) log0
        else if fail_if_not_exists then
          mkWritten (Err edges_bulk_write) [] log0
        else
          mkWritten (Err edges_bulk_write) [] log0
    end.

(** ** The reading methods of [MongoDbGraphProvider] *)

(** What pymongo is asked, and what is logged, in order. *)
Inductive Call : Type :=
| NewMongoClient (host : option string)
| ClientClose
| Find (collection : string) (query : Dict)
| FindOne (collection : string) (query : Dict)
| Count (collection : string) (query : Dict)
| CursorCount
| Log (entry : LogEntry).

(** A cursor: what iterating it yields and what its [count()] answers. *)
Record Cursor : Type := mkCursor {
  cursor_items : Res (list Dict);
  cursor_count : Res Z
}.

(** The database server and pymongo, as the provider meets them. *)
Record Mongo : Type := mkMongo {
  mongo_client : option string -> option PyError;
  mongo_find : string -> Dict -> Res Cursor;
  mongo_find_one : string -> Dict -> Res (option Dict);
  mongo_count : string -> Dict -> Res Z
}.

(** The attributes of the provider, and the trace of what it did. *)
Record Provider : Type := mkProvider {
  db_name : string;
  host : option string;
  nodes_collection_name : string;
  edges_collection_name : string;
  position_attribute : PositionAttribute;
  client : option (option string);
  database : option string;
  nodes : option string;
  edges : option string;
  trace : list Call
}.

Definition P (A : Type) : Type := Provider -> Res A * Provider.

Definition pbind {A B : Type} (c : P A) (k : A -> P B) : P B :=
  fun self =>
    match c self with
    | (Ok a, self') => k a self'
    | (Err e, self') => (Err e, self')
    end.

(** [try: body finally: final]: the outcome of [body], unless [final]
    raises, and then its exception. *)
Definition try_finally {A : Type} (body : P A) (final : P unit) : P A :=
  fun self =>
    match body self with
    | (o, self') =>
        match final self' with
        | (Ok _, self'') => (o, self'')
        | (Err e, self'') => (Err e, self'')
        end
    end.

Definition record (call : Call) (self : Provider) : Provider :=
  mkProvider (db_name self) (host self) (nodes_collection_name self)
    (edges_collection_name self) (position_attribute self) (client self)
    (database self) (nodes self) (edges self) (trace self ++ [call]).

Definition set_handles (c : option (option string)) (d n e : option string)
  (self : Provider) : Provider :=
  mkProvider (db_name self) (host self) (nodes_collection_name self)
    (edges_collection_name self) (position_attribute self) c d n e
    (trace self).

Definition debug (text : string) : P unit :=
  fun self => (Ok tt, record (Log (LogDebug text)) self).

(** [__connect]: [self.client = MongoClient(self.host)] *)
Definition __connect (m : Mongo) : P unit :=
  fun self =>
    let self1 := record (NewMongoClient (host self)) self in
    match mongo_client m (host self) with
    | Some e => (Err e, self1)
    | None =>
        (Ok tt,
         set_handles (Some (host self)) (database self) (nodes self)
           (edges self) self1)
    end.

(** [__open_db]: [self.database = self.client[self.db_name]] *)
Definition __open_db : P unit :=
  fun self =>
    match client self with
    | None => (Err (TypeError "'NoneType' object is not subscriptable"), self)
    | Some _ =>
        (Ok tt,
         set_handles (client self) (Some (db_name self)) (nodes self)
           (edges self) self)
    end.

(** [__open_collections] *)
Definition __open_collections : P unit :=
  fun self =>
    match database self with
    | None => (Err (TypeError "'NoneType' object is not subscriptable"), self)
    | Some _ =>
        (Ok tt,
         set_handles (client self) (database self)
           (Some (nodes_collection_name self))
           (Some (edges_collection_name self)) self)
    end.

(** [__disconnect]: the three handles are cleared, then
    [self.client.close()] is called, which fails on [None]. *)
Definition __disconnect : P unit :=
  fun self =>
    match client self with
    | None =>
        (Err (AttributeError "'NoneType' object has no attribute 'close'"),
         set_handles None None None None self)
    | Some _ => (Ok tt, record ClientClose (set_handles None None None None self))
    end.

(** A method of a collection handle: [None] has none. *)
Definition on_collection {A : Type} (handle : option string)
  (method : string) (call : string -> Call) (answer : string -> Res A) : P A :=
  fun self =>
    match handle with
    | None =>
        (Err (AttributeError
                (String.append "'NoneType' object has no attribute '"
                   (String.append method "'"))),
         self)
    | Some collection => (answer collection, record (call collection) self)
    end.

Definition opened (m : Mongo) : P unit :=
  pbind (__connect m) (fun _ => pbind __open_db (fun _ => __open_collections)).

(** [read_nodes] *)
Definition read_nodes (m : Mongo) (roi : Roi) : P Cursor :=
  pbind (debug "Querying nodes in %s") (fun _ =>
  try_finally
    (pbind (opened m) (fun _ => fun self =>
       on_collection (nodes self) "find"
         (fun c => Find c (__pos_query (position_attribute self) roi))
         (fun c => mongo_find m c (__pos_query (position_attribute self) roi))
         self))
    __disconnect).

(** [num_nodes] *)
Definition num_nodes (m : Mongo) (roi : Roi) : P Z :=
  try_finally
    (pbind (opened m) (fun _ => fun self =>
       on_collection (nodes self) "count"
         (fun c => Count c (__pos_query (position_attribute self) roi))
         (fun c => mongo_count m c (__pos_query (position_attribute self) roi))
         self))
    __disconnect.

(** [node['id']] *)
Definition item (key : string) (d : Dict) : Res Value :=
  match dict_get key d with
  | Some v => Ok v
  | None => Err (KeyError (VStr key))
  end.

(** [has_edges]: inside the [try], [None] stands for the [return False]. *)
Definition has_edges (m : Mongo) (roi : Roi) : P bool :=
  pbind
    (try_finally
       (pbind (opened m) (fun _ => fun self =>
          pbind
            (on_collection (nodes self) "find_one"
               (fun c => FindOne c (__pos_query (position_attribute self) roi))
               (fun c =>
                  mongo_find_one m c
                    (__pos_query (position_attribute self) roi)))
            (fun node => fun self' =>
               match node with
               | None => (Ok None, self')
               | Some node =>
                   match item "id" node with
                   | Err e => (Err e, self')
                   | Ok i =>
                       pbind
                         (on_collection (edges self') "find"
                            (fun c => Find c [("u", i)])
                            (fun c => mongo_find m c [("u", i)]))
                         (fun cursor => fun s => (Ok (Some cursor), s)) self'
                   end
               end)
            self))
       __disconnect)
    (fun found => fun self =>
       match found with
       | None => (Ok false, self)
       | Some cursor =>
           match cursor_count cursor with
           | Ok n => (Ok (Z.ltb 0 n), record CursorCount self)
           | Err e => (Err e, record CursorCount self)
           end
       end).

(** [[n['id'] for n in nodes]] *)
Fixpoint ids_of (docs : list Dict) : Res (list Value) :=
  match docs with
  | [] => Ok []
  | n :: rest =>
      match item "id" n with
      | Err e => Err e
      | Ok i =>
          match ids_of rest with
          | Err e => Err e
          | Ok l => Ok (i :: l)
          end
      end
  end.

Definition query_size : nat := 128.

(** [range(0, length, query_size)] *)
Definition starts (length : nat) : list nat :=
  map (fun j => j * query_size) (seq 0 ((length + (query_size - 1)) / query_size)).

(** [{'u': {'$in': node_ids[i:i+query_size]}}] *)
Definition in_query (node_ids : list Value) (i : nat) : Dict :=
  [("u", VDict [("$in", VList (firstn query_size (skipn i node_ids)))])].

(** The loop of [read_edges]: one [find] per start, its cursor listed and
    appended. *)
Fixpoint find_edges (m : Mongo) (node_ids : list Value) (indices : list nat)
  (found : list Dict) : P (list Dict) :=
  match indices with
  | [] => fun self => (Ok found, self)
  | i :: rest =>
      fun self =>
        pbind
          (on_collection (edges self) "find"
             (fun c => Find c (in_query node_ids i))
             (fun c => mongo_find m c (in_query node_ids i)))
          (fun cursor => fun self' =>
             match cursor_items cursor with
             | Err e => (Err e, self')
             | Ok l => find_edges m node_ids rest (found ++ l) self'
             end)
          self
  end.

(** [read_edges] *)
Definition read_edges (m : Mongo) (roi : Roi) : P (list Dict) :=
  pbind (read_nodes m roi) (fun nodes => fun self =>
    match cursor_items nodes with
    | Err e => (Err e, self)
    | Ok docs =>
        match ids_of docs with
        | Err e => (Err e, self)
        | Ok node_ids =>
            pbind (debug "found %d nodes") (fun _ =>
            pbind (debug "looking for edges with u in %s") (fun _ =>
            try_finally
              (pbind (opened m) (fun _ =>
               pbind
                 (find_edges m node_ids (starts (List.length node_ids)) [])
                 (fun edges =>
                  pbind (debug "found %d edges") (fun _ =>
                  pbind (debug "read edges: %s") (fun _ =>
                  fun s => (Ok edges, s))))))
              __disconnect))
              self
        end
    end).

End MongoDb.

(** Whether [write_nodes] and [write_edges] copy the entry of [key]. *)
Definition MongoDb_copies (attributes : option (list string)) (key : string)
  : bool :=
  match attributes with
  | None => true
  | Some [] => true
  | Some l => MongoDb.mem key l
  end.

(** A region that holds the positions [begin <= position < end]. *)
Definition MongoDb_box (b e : list Z) : MongoDb.Roi :=
  MongoDb.mkRoi b e
    (fun position =>
       match position with
       | MongoDb.VList items =>
           forallb
             (fun xbe =>
                match fst xbe with
                | MongoDb.VInt x =>
                    Z.leb (fst (snd xbe)) x && Z.ltb x (snd (snd xbe))
                | _ => false
                end)
             (combine items (combine b e))
       | _ => false
       end).

(** A subgraph of three nodes, one of them without a position, and two
    edges. *)
Definition MongoDb_example : MongoDb.MongoDbSubGraph :=
  MongoDb.mkSubGraph "r+" (MongoDb_box [0; 0]%Z [10; 10]%Z)
    [(1, [("position", MongoDb.VList [MongoDb.VInt 1; MongoDb.VInt 1]);
          ("score", MongoDb.VInt 7)]);
     (2, [("position", MongoDb.VList [MongoDb.VInt 20; MongoDb.VInt 1])]);
     (3, [])]%Z
    [(2, 1, [("weight", MongoDb.VInt 5)]);
     (3, 2, [])]%Z.

(** Whether a node with this data lies in the region: it has a position,
    and the region contains it. *)
Definition MongoDb_inside (r : MongoDb.Roi) (data : MongoDb.Dict) : bool :=
  match MongoDb.dict_get "position" data with
  | Some position => MongoDb.contains r position
  | None => false
  end.

(** The region a write method works on. *)
Definition MongoDb_region (self : MongoDb.MongoDbSubGraph)
  (roi_ : option MongoDb.Roi) : MongoDb.Roi :=
  match roi_ with
  | None => MongoDb.roi self
  | Some r => r
  end.


(** Whether the smaller end of an edge lies in the region. *)
Definition MongoDb_edge_inside (self : MongoDb.MongoDbSubGraph)
  (r : MongoDb.Roi) (edge : Z * Z * MongoDb.Dict) : bool :=
  match MongoDb.node_data (Z.min (fst (fst edge)) (snd (fst edge)))
          (MongoDb.graph_nodes self) with
  | Some data => MongoDb_inside r data
  | None => false
  end.

(** The documents of the edges of the graph whose smaller end lies in the
    region, in the order of the graph. *)
Definition MongoDb_edges_inside (self : MongoDb.MongoDbSubGraph)
  (r : MongoDb.Roi) (attributes : option (list string))
  : list MongoDb.Dict :=
  map (fun edge =>
         MongoDb.document attributes
           [("u", MongoDb.VInt (Z.min (fst (fst edge)) (snd (fst edge))));
            ("v", MongoDb.VInt (Z.max (fst (fst edge)) (snd (fst edge))))]
           (snd edge))
    (filter (MongoDb_edge_inside self r) (MongoDb.graph_edges self)).


(** How [write_edges] ends when it has [docs] to write. *)
Definition MongoDb_edge_write (fail_if_exists : bool)
  (db : MongoDb.DbCall -> option MongoDb.PyError) (docs : list MongoDb.Dict)
  : MongoDb.Written :=
  if fail_if_exists then
    MongoDb.attempt db (MongoDb.insert_many MongoDb.edges_collection docs)
      [MongoDb.LogDebug "Writing edges in %s"]
  else
    MongoDb.mkWritten (MongoDb.Err MongoDb.edges_bulk_write) []
      [MongoDb.LogDebug "Writing edges in %s"].

(** A subgraph that is open for reading only. *)
Definition MongoDb_read_only : MongoDb.MongoDbSubGraph :=
  MongoDb.mkSubGraph "r" (MongoDb.roi MongoDb_example)
    (MongoDb.graph_nodes MongoDb_example)
    (MongoDb.graph_edges MongoDb_example).

(** The documents a database call carries. *)
Definition MongoDb_call_documents (call : MongoDb.DbCall)
  : list MongoDb.Dict :=
  match call with
  | MongoDb.insert_many _ docs => docs
  | MongoDb.bulk_write _ requests => map MongoDb.update_document requests
  end.

(** A database that accepts every call, and one that rejects every call. *)
Definition MongoDb_accepting (call : MongoDb.DbCall)
  : option MongoDb.PyError := None.


(** The error of calling [close] on a client that is [None]. *)
Definition MongoDb_no_close : MongoDb.PyError :=
  MongoDb.AttributeError "'NoneType' object has no attribute 'close'".

(** A provider between two calls: it holds no client and no handle. *)
Definition MongoDb_idle (self : MongoDb.Provider) : Prop :=
  MongoDb.client self = None /\ MongoDb.database self = None /\
  MongoDb.nodes self = None /\ MongoDb.edges self = None.

Definition MongoDb_provider : MongoDb.Provider :=
  MongoDb.mkProvider "graph" None "nodes" "edges" (MongoDb.Single "position")
    None None None None [].

(** A server that cannot be reached, and one that holds two nodes and one
    edge. *)
Definition MongoDb_unreachable : MongoDb.Mongo :=
  MongoDb.mkMongo
    (fun _ => Some (MongoDb.OtherError "ConfigurationError"))
    (fun _ _ => MongoDb.Ok (MongoDb.mkCursor (MongoDb.Ok []) (MongoDb.Ok 0%Z)))
    (fun _ _ => MongoDb.Ok None)
    (fun _ _ => MongoDb.Ok 0%Z).

Definition MongoDb_server : MongoDb.Mongo :=
  MongoDb.mkMongo
    (fun _ => None)
    (fun collection _ =>
       if String.eqb collection "nodes" then
         MongoDb.Ok
           (MongoDb.mkCursor
              (MongoDb.Ok [[("id", MongoDb.VInt 1)]; [("id", MongoDb.VInt 2)]])
              (MongoDb.Ok 2%Z))
       else
         MongoDb.Ok
           (MongoDb.mkCursor
              (MongoDb.Ok [[("u", MongoDb.VInt 1); ("v", MongoDb.VInt 2)]])
              (MongoDb.Ok 1%Z)))
    (fun _ _ => MongoDb.Ok (Some [("id", MongoDb.VInt 1)]))
    (fun _ _ => MongoDb.Ok 2%Z).

(** The provider after it has recorded [calls]. *)
Definition MongoDb_after (calls : list MongoDb.Call) (self : MongoDb.Provider)
  : MongoDb.Provider :=
  MongoDb.mkProvider (MongoDb.db_name self) (MongoDb.host self)
    (MongoDb.nodes_collection_name self) (MongoDb.edges_collection_name self)
    (MongoDb.position_attribute self) (MongoDb.client self)
    (MongoDb.database self) (MongoDb.nodes self) (MongoDb.edges self)
    (MongoDb.trace self ++ calls).

(** The slice [node_ids[i:i+query_size]]. *)
Definition MongoDb_chunk (node_ids : list MongoDb.Value) (i : nat)
  : list MongoDb.Value :=
  firstn MongoDb.query_size (skipn i node_ids).

(** * Properties *)

(** ** Basic facts *)

Lemma is_connected_true (st : State) :
  is_connected st = true <-> stream st <> None.
Proof.
  unfold is_connected. destruct (stream st); split; congruence.
Qed.

Lemma is_connected_false (st : State) :
  is_connected st = false <-> stream st = None.
Proof.
  unfold is_connected. destruct (stream st); split; congruence.
Qed.

Lemma send_message_connected (message : Message) (st : State) :
  exception_queue st = [] -> is_connected st = true ->
  send_message message st = stream_send_message message st.
Proof.
  intros Hq Hc. unfold send_message, bind, _check_for_errors, connected.
  rewrite Hq, Hc. reflexivity.
Qed.

Lemma send_message_not_connected (message : Message) (st : State) :
  exception_queue st = [] -> is_connected st = false ->
  send_message message st = (Raise NotConnected, st).
Proof.
  intros Hq Hc. unfold send_message, bind, _check_for_errors, connected.
  rewrite Hq, Hc. reflexivity.
Qed.

Lemma get_message_not_connected (timeout : option Q) (st : State) :
  exception_queue st = [] -> is_connected st = false ->
  get_message timeout st = (Raise NotConnected, st).
Proof.
  intros Hq Hc. unfold get_message, bind, _check_for_errors, connected.
  rewrite Hq, Hc. reflexivity.
Qed.

Lemma send_message_pending (message : Message) (st : State) e rest :
  exception_queue st = e :: rest ->
  send_message message st = (Raise e, set_exception_queue rest st).
Proof.
  intros Hq. unfold send_message, bind, _check_for_errors.
  rewrite Hq. reflexivity.
Qed.

Lemma get_message_pending (timeout : option Q) (st : State) e rest :
  exception_queue st = e :: rest ->
  get_message timeout st = (Raise e, set_exception_queue rest st).
Proof.
  intros Hq. unfold get_message, bind, _check_for_errors.
  rewrite Hq. reflexivity.
Qed.

(** How the constructor ends, by what the server answers. *)
Lemma init_accepted h p peer :
  peer_reply peer = Accepted ->
  exists st,
    __init__ h p peer = (Return tt, st) /\
    stream st = Some (mkTCPStream h p) /\
    exception_queue st = [] /\ message_queue st = [] /\
    receive_task st = Scheduled /\ ioloop_running st = true /\
    close_calls st = 0 /\ wire_in st = peer_sends peer /\ wire_out st = [].
Proof.
  intros Hr. exists (snd (__init__ h p peer)).
  destruct peer as [r evs sf cf]. cbn [peer_reply peer_sends] in *. subst r.
  vm_compute. repeat split.
Qed.

Lemma init_refused h p peer e :
  peer_reply peer = Refused e ->
  exists st,
    __init__ h p peer = (Raise e, st) /\
    stream st = None /\ exception_queue st = [] /\
    receive_task st = NotScheduled /\ wire_out st = [].
Proof.
  intros Hr. exists (snd (__init__ h p peer)).
  destruct peer as [r evs sf cf]. cbn [peer_reply peer_sends] in *. subst r.
  vm_compute. repeat split.
Qed.

Lemma init_unanswered h p peer :
  peer_reply peer = Unanswered ->
  exists st,
    __init__ h p peer = (Blocked, st) /\
    stream st = None /\ exception_queue st = [] /\
    receive_task st = NotScheduled /\ wire_out st = [].
Proof.
  intros Hr. exists (snd (__init__ h p peer)).
  destruct peer as [r evs sf cf]. cbn [peer_reply peer_sends] in *. subst r.
  vm_compute. repeat split.
Qed.

Lemma init_not_returned h p peer o st :
  __init__ h p peer = (o, st) -> o <> Return tt ->
  stream st = None /\ exception_queue st = [].
Proof.
  intros Hi Ho. destruct (peer_reply peer) eqn:Hr.
  - destruct (init_accepted h p peer Hr) as (st' & E & _). congruence.
  - destruct (init_refused h p peer e Hr) as (st' & E & Hs & Hq & _).
    rewrite E in Hi. inversion Hi; subst. auto.
  - destruct (init_unanswered h p peer Hr) as (st' & E & Hs & Hq & _).
    rewrite E in Hi. inversion Hi; subst. auto.
Qed.

(** ** [send_message] *)

(** C3 (as stated, refuted): a client that is Disconnecting, whose
    [disconnect] has sent [NotifyClientDisconnect] and whose receive loop
    has not seen an acknowledgement, is not in state Connected and has no
    error pending; [send_message] does not raise [NotConnected] there.  It
    returns, and the message goes on the wire behind the notification. *)
Lemma send_message_while_disconnecting :
  disconnect_notify client_idle = (Return tt, client_notified) /\
  exception_queue client_notified = [] /\
  wire_in client_notified = [] /\
  receive_task client_notified = Scheduled /\
  close_calls client_notified = 0 /\
  wire_out client_notified = [NotifyClientDisconnect] /\
  send_message m1 client_notified
    = (Return tt, set_wire_out [NotifyClientDisconnect; m1] client_notified) /\
  fst (disconnect client_idle) = Blocked /\
  fst (send_message m1 (snd (disconnect client_idle))) = Return tt /\
  wire_out (snd (send_message m1 (snd (disconnect client_idle))))
    = [NotifyClientDisconnect; m1].
Proof.
  vm_compute. repeat split.
Qed.

(** C3 (amended): [send_message] first takes a pending error out of the
    exception queue and raises it; with no error pending and no stream it
    raises [NotConnected] and changes nothing (so also on a client whose
    constructor did not return, where no connect has succeeded); otherwise,
    whenever the stream reference is set, it hands the message to the stream,
    which puts it on the wire.  The stream reference is all it looks at: once
    [disconnect] has sent its notification the client still has its stream,
    and [send_message] still sends. *)
Theorem send_message_spec (message : Message) (st : State) :
  (forall e rest, exception_queue st = e :: rest ->
     send_message message st = (Raise e, set_exception_queue rest st)) /\
  (exception_queue st = [] -> is_connected st = false ->
     send_message message st = (Raise NotConnected, st)) /\
  (exception_queue st = [] -> is_connected st = true ->
     send_message message st = stream_send_message message st /\
     (send_fault st = None ->
      send_message message st =
        (Return tt, set_wire_out (wire_out st ++ [message]) st))) /\
  (forall h p peer o, __init__ h p peer = (o, st) -> o <> Return tt ->
     send_message message st = (Raise NotConnected, st)) /\
  (forall st', exception_queue st = [] -> is_connected st = true ->
     disconnect_notify st = (Return tt, st') ->
     wire_out st' = wire_out st ++ [NotifyClientDisconnect] /\
     send_message message st'
       = (Return tt, set_wire_out (wire_out st' ++ [message]) st')).
Proof.
  split; [|split; [|split; [|split]]].
  - intros e rest Hq. now apply send_message_pending.
  - intros Hq Hc. now apply send_message_not_connected.
  - intros Hq Hc. split; [now apply send_message_connected|].
    intros Hf. rewrite send_message_connected by assumption.
    unfold stream_send_message. rewrite Hf. reflexivity.
  - intros h p peer o Hi Ho.
    destruct (init_not_returned h p peer o st Hi Ho) as [Hs Hq].
    apply send_message_not_connected; [assumption|].
    now apply is_connected_false.
  - intros st' Hq Hc Hn.
    unfold disconnect_notify, bind, logger_debug, modify, stream_send_message
      in Hn.
    cbn [send_fault set_log] in Hn.
    destruct (send_fault st) eqn:Hf; [discriminate|].
    inversion Hn; subst st'. clear Hn.
    split; [reflexivity|].
    rewrite send_message_connected by (cbn; assumption).
    unfold stream_send_message. cbn [send_fault set_wire_out set_log].
    now rewrite Hf.
Qed.

Lemma send_message_spec_witness :
  send_message m1 client_pending
    = (Raise StreamClosedError, set_exception_queue [] client_pending) /\
  send_message m1 client_closed = (Raise NotConnected, client_closed) /\
  send_message m1 client_idle
    = (Return tt, set_wire_out (wire_out client_idle ++ [m1]) client_idle) /\
  send_message m1 client_refused = (Raise NotConnected, client_refused) /\
  send_message m1 client_notified
    = (Return tt,
       set_wire_out (wire_out client_notified ++ [m1]) client_notified).
Proof.
  split; [|split; [|split; [|split]]].
  - apply (proj1 (send_message_spec m1 client_pending)).
    vm_compute. reflexivity.
  - apply (proj1 (proj2 (send_message_spec m1 client_closed)));
      vm_compute; reflexivity.
  - apply (proj1 (proj2 (proj2 (send_message_spec m1 client_idle))));
      vm_compute; reflexivity.
  - apply (proj1 (proj2 (proj2 (proj2 (send_message_spec m1 client_refused))))
             "localhost" 9000%Z refusing
             (Raise (TransportError "connection refused"))).
    + vm_compute. reflexivity.
    + discriminate.
  - apply (proj2 (proj2 (proj2 (proj2 (send_message_spec m1 client_idle))))
             client_notified); vm_compute; reflexivity.
Defined.

(** C10: when the stream's send raises inside [send_message] on a connected
    client, the exception reaches the caller, nothing is put on the exception
    queue, and the state is the one before the call: the stream is still
    there and [connected] still answers true. *)
Theorem send_message_stream_failure
  (message : Message) (st : State) (e : Exn) :
  exception_queue st = [] -> is_connected st = true ->
  send_fault st = Some e ->
  exists st',
    send_message message st = (Raise e, st') /\
    st' = st /\
    exception_queue st' = [] /\
    stream st' = stream st /\
    wire_out st' = wire_out st /\
    connected st' = (Return true, st').
Proof.
  intros Hq Hc Hf. exists st.
  rewrite send_message_connected by assumption.
  unfold stream_send_message, connected. rewrite Hf, Hc.
  repeat split; auto.
Qed.

Lemma send_message_stream_failure_witness :
  exists st',
    send_message m1 client_send_fault = (Raise StreamClosedError, st') /\
    st' = client_send_fault /\
    exception_queue st' = [] /\
    stream st' = stream client_send_fault /\
    wire_out st' = wire_out client_send_fault /\
    connected st' = (Return true, st').
Proof.
  apply (send_message_stream_failure m1 client_send_fault StreamClosedError);
    vm_compute; reflexivity.
Defined.

(** ** Polling and the reactor *)

Lemma run_until_outcome (cond : State -> bool) (n : nat) (st : State) :
  exists k,
    k <= n /\
    snd (run_until cond n st) = reactor_steps k st /\
    ((fst (run_until cond n st) = Return tt /\
      cond (reactor_steps k st) = true) \/
     (fst (run_until cond n st) = Blocked /\ k = n /\
      cond (reactor_steps k st) = false)).
Proof.
  revert st. induction n as [|n IH]; intros st; cbn [run_until].
  - exists 0. cbn [reactor_steps]. destruct (cond st) eqn:Hc; cbn [fst snd].
    + split; [lia|]. split; [reflexivity|]. left. auto.
    + split; [lia|]. split; [reflexivity|]. right. auto.
  - destruct (cond st) eqn:Hc.
    + exists 0. cbn [reactor_steps fst snd].
      split; [lia|]. split; [reflexivity|]. left. auto.
    + destruct (IH (reactor_step st)) as (k & Hk & Hs & Ho).
      exists (S k). cbn [reactor_steps]. split; [lia|].
      split; [assumption|].
      destruct Ho as [[Ho Hc']|(Ho & Hn & Hc')]; [left|right]; auto.
Qed.

Lemma await_returns (cond : State -> bool) (st st' : State) :
  await cond st = (Return tt, st') -> cond st' = true.
Proof.
  unfold await. intros H.
  destruct (run_until_outcome cond (S (List.length (wire_in st))) st)
    as (k & _ & Hs & [[_ Hc]|(Ho & _)]);
    rewrite H in *; cbn [fst snd] in *; [congruence|discriminate].
Qed.

Lemma await_blocked (cond : State -> bool) (st st' : State) :
  await cond st = (Blocked, st') -> cond st' = false.
Proof.
  unfold await. intros H.
  destruct (run_until_outcome cond (S (List.length (wire_in st))) st)
    as (k & _ & Hs & [[Ho _]|(_ & _ & Hc)]);
    rewrite H in *; cbn [fst snd] in *; [discriminate|congruence].
Qed.

Lemma await_never_raises (cond : State -> bool) (st st' : State) e :
  await cond st <> (Raise e, st').
Proof.
  unfold await. intros H.
  destruct (run_until_outcome cond (S (List.length (wire_in st))) st)
    as (k & _ & _ & [[Ho _]|(Ho & _)]);
    rewrite H in Ho; discriminate.
Qed.

Lemma await_steps (cond : State -> bool) (st : State) :
  exists k, snd (await cond st) = reactor_steps k st.
Proof.
  unfold await.
  destruct (run_until_outcome cond (S (List.length (wire_in st))) st)
    as (k & _ & Hs & _).
  now exists k.
Qed.

(** Each turn of the reactor leaves the state as it is, ends the receive
    coroutine, or takes one event off the wire. *)
Lemma reactor_step_cases (st : State) :
  reactor_step st = st \/
  receive_task (reactor_step st) = Finished \/
  exists ev, wire_in st = ev :: wire_in (reactor_step st).
Proof.
  unfold reactor_step.
  destruct (ioloop_running st); [|now left].
  destruct (receive_task st); try now left.
  destruct (is_connected st); cbn [negb]; [|right; now left].
  destruct (wire_in st) as [|ev rest] eqn:Hw; [now left|].
  destruct (_receive_body ev (set_wire_in rest st)) as [[|] s] eqn:Hb.
  - right. right. exists ev. f_equal.
    unfold _receive_body in Hb. destruct ev as [message|e]; [|discriminate].
    destruct (isinstance_AckClientDisconnect message); [discriminate|].
    inversion Hb. reflexivity.
  - right. now left.
Qed.

Lemma reactor_steps_fixed (n : nat) (st : State) :
  reactor_step st = st -> reactor_steps n st = st.
Proof.
  intros H. induction n as [|n IH]; cbn [reactor_steps]; [reflexivity|].
  now rewrite H.
Qed.

Lemma reactor_step_stops (st : State) :
  receive_task st = Finished -> reactor_step st = st.
Proof.
  intros Ht. unfold reactor_step. rewrite Ht. now destruct (ioloop_running st).
Qed.

(** After one turn more than there are events on the wire, the reactor has
    nothing left to do. *)
Lemma reactor_steps_quiescent (n : nat) (st : State) :
  List.length (wire_in st) <= n ->
  reactor_step (reactor_steps (S n) st) = reactor_steps (S n) st.
Proof.
  revert st. induction n as [|n IH]; intros st Hl.
  - cbn [reactor_steps].
    destruct (reactor_step_cases st) as [H|[H|(ev & H)]].
    + now rewrite !H.
    + now apply reactor_step_stops.
    + rewrite H in Hl. cbn in Hl. lia.
  - change (reactor_steps (S (S n)) st)
      with (reactor_steps (S n) (reactor_step st)).
    destruct (reactor_step_cases st) as [H|[H|(ev & H)]].
    + rewrite H. rewrite (reactor_steps_fixed (S n) st H). exact H.
    + assert (F : reactor_step (reactor_step st) = reactor_step st)
        by now apply reactor_step_stops.
      rewrite (reactor_steps_fixed (S n) _ F). exact F.
    + apply IH. rewrite H in Hl. cbn in Hl. lia.
Qed.

(** A caller that [await] leaves blocked stays blocked: the state it waits
    in no longer changes, so its condition never comes to hold. *)
Lemma await_blocked_for_ever (cond : State -> bool) (st st' : State) :
  await cond st = (Blocked, st') ->
  forall k, reactor_steps k st' = st' /\ cond (reactor_steps k st') = false.
Proof.
  unfold await. intros H k.
  destruct (run_until_outcome cond (S (List.length (wire_in st))) st)
    as (n & _ & Hs & [[Ho _]|(_ & Hn & Hc)]);
    rewrite H in *; cbn [fst snd] in *; [discriminate|].
  subst n. rewrite Hs in *.
  assert (F : reactor_steps k (reactor_steps (S (List.length (wire_in st))) st)
              = reactor_steps (S (List.length (wire_in st))) st)
    by (apply reactor_steps_fixed; now apply reactor_steps_quiescent).
  rewrite F. auto.
Qed.

(** The coroutine [_receive], run on the events of the wire, is what the
    turns of the reactor add up to. *)
Lemma _receive_reactor_steps (events : list Event) (st : State) :
  ioloop_running st = true -> receive_task st = Scheduled ->
  wire_in st = events ->
  _receive events st = reactor_steps (S (List.length events)) st.
Proof.
  revert st. induction events as [|ev rest IH]; intros st Hr Ht Hw;
    cbn [_receive List.length].
  - change (reactor_steps 1 st) with (reactor_step st).
    unfold reactor_step. rewrite Hr, Ht, Hw.
    now destruct (negb (is_connected st)).
  - change (reactor_steps (S (S (List.length rest))) st)
      with (reactor_steps (S (List.length rest)) (reactor_step st)).
    destruct (negb (is_connected st)) eqn:Hc.
    + assert (E : reactor_step st = set_receive_task Finished st)
        by (unfold reactor_step; now rewrite Hr, Ht, Hc).
      rewrite E. symmetry. apply reactor_steps_fixed.
      now apply reactor_step_stops.
    + destruct (_receive_body ev (set_wire_in rest st)) as [[|] s] eqn:Hb.
      * assert (E : reactor_step st = s)
          by (unfold reactor_step; now rewrite Hr, Ht, Hc, Hw, Hb).
        rewrite E. unfold _receive_body in Hb.
        destruct ev as [message|e]; [|discriminate].
        destruct (isinstance_AckClientDisconnect message); [discriminate|].
        inversion Hb; subst s. now apply IH.
      * assert (E : reactor_step st = set_receive_task Finished s)
          by (unfold reactor_step; now rewrite Hr, Ht, Hc, Hw, Hb).
        rewrite E. symmetry. apply reactor_steps_fixed.
        now apply reactor_step_stops.
Qed.

(** ** [disconnect] *)

Lemma disconnect_not_connected (st : State) :
  is_connected st = false ->
  disconnect st = (Return tt, set_log (log st ++ [disconnect_warning]) st).
Proof.
  intros Hc. unfold disconnect, bind, connected. rewrite Hc. reflexivity.
Qed.

Lemma disconnect_connected (st : State) :
  is_connected st = true ->
  disconnect st = (disconnect_notify ;; disconnect_wait) st.
Proof.
  intros Hc. unfold disconnect, connected.
  unfold bind at 1. rewrite Hc. reflexivity.
Qed.

Lemma disconnect_wait_returns (st st' : State) :
  disconnect_wait st = (Return tt, st') -> is_connected st' = false.
Proof.
  unfold disconnect_wait, bind, logger_debug, modify.
  destruct (await (fun s => negb (is_connected s)) st) as [[[]| |] s] eqn:Ha;
    try discriminate.
  apply await_returns in Ha. intros H. inversion H; subst.
  apply negb_true_iff in Ha. exact Ha.
Qed.

Lemma disconnect_returns (st st' : State) :
  disconnect st = (Return tt, st') -> is_connected st' = false.
Proof.
  destruct (is_connected st) eqn:Hc.
  - rewrite disconnect_connected by assumption.
    unfold bind at 1.
    destruct (disconnect_notify st) as [[[]| |] s]; try discriminate.
    apply disconnect_wait_returns.
  - rewrite disconnect_not_connected by assumption.
    intros H. inversion H; subst. exact Hc.
Qed.

(** C9: [disconnect] on a client that is not connected returns normally; it
    logs one warning and changes no other part of the state.  So a second
    [disconnect], called after a first one has returned, is such a call. *)
Theorem disconnect_idempotent (st : State) :
  (is_connected st = false ->
   disconnect st
     = (Return tt, set_log (log st ++ [disconnect_warning]) st)) /\
  (forall st1, disconnect st = (Return tt, st1) ->
   disconnect st1
     = (Return tt, set_log (log st1 ++ [disconnect_warning]) st1)).
Proof.
  split.
  - apply disconnect_not_connected.
  - intros st1 H. apply disconnect_not_connected.
    now apply disconnect_returns with st.
Qed.

Lemma disconnect_idempotent_witness :
  disconnect client_closed
    = (Return tt,
       set_log (log client_closed ++ [disconnect_warning]) client_closed) /\
  disconnect client_refused
    = (Return tt,
       set_log (log client_refused ++ [disconnect_warning]) client_refused).
Proof.
  split.
  - apply (proj2 (disconnect_idempotent
                    (client_of [Received AckClientDisconnect]))
             client_closed).
    vm_compute. reflexivity.
  - apply (proj1 (disconnect_idempotent client_refused)).
    vm_compute. reflexivity.
Defined.

(** ** [connected] and the handshake of [disconnect] *)

(** C7 (as stated, refuted): after [disconnect] has sent
    [NotifyClientDisconnect] and before the receive loop has seen any
    acknowledgement, [connected] answers true, not false; a [disconnect]
    that is never acknowledged sleeps in that state. *)
Lemma connected_while_disconnecting :
  disconnect_notify client_idle = (Return tt, client_notified) /\
  wire_out client_notified = [NotifyClientDisconnect] /\
  wire_in client_notified = [] /\
  receive_task client_notified = Scheduled /\
  close_calls client_notified = 0 /\
  connected client_notified = (Return true, client_notified) /\
  fst (disconnect client_idle) = Blocked /\
  connected (snd (disconnect client_idle))
    = (Return true, snd (disconnect client_idle)).
Proof.
  vm_compute. repeat split.
Qed.

Lemma disconnect_notify_stream (st st' : State) o :
  disconnect_notify st = (o, st') -> stream st' = stream st.
Proof.
  unfold disconnect_notify, bind, logger_debug, modify, stream_send_message.
  destruct st; cbn. destruct send_fault0; intros H; inversion H; reflexivity.
Qed.

Lemma disconnect_notify_not_blocked (st st' : State) :
  disconnect_notify st <> (Blocked, st').
Proof.
  unfold disconnect_notify, bind, logger_debug, modify, stream_send_message.
  destruct st; cbn. destruct send_fault0; discriminate.
Qed.

(** C7 (amended): [connected] changes nothing and answers true exactly when
    the stream reference is set.  The client keeps no other record of its
    state, so the answer is still true once [disconnect] has sent its
    notification, and it is true in the state where a [disconnect] sleeps
    for ever; it is false once [disconnect] has returned. *)
Theorem connected_iff_stream (st : State) :
  snd (connected st) = st /\
  (fst (connected st) = Return true <-> stream st <> None) /\
  (fst (connected st) = Return false <-> stream st = None) /\
  (forall st', is_connected st = true ->
     disconnect_notify st = (Return tt, st') ->
     connected st' = (Return true, st')) /\
  (forall st', is_connected st = true ->
     disconnect st = (Blocked, st') ->
     connected st' = (Return true, st')) /\
  (forall st', disconnect st = (Return tt, st') ->
     connected st' = (Return false, st')).
Proof.
  repeat split.
  - unfold connected. cbn [fst]. intros H. apply is_connected_true.
    congruence.
  - unfold connected. cbn [fst]. intros H. apply is_connected_true in H.
    congruence.
  - unfold connected. cbn [fst]. intros H. apply is_connected_false.
    congruence.
  - unfold connected. cbn [fst]. intros H. apply is_connected_false in H.
    congruence.
  - intros st' Hc Hn. apply disconnect_notify_stream in Hn.
    unfold connected, is_connected in *. rewrite Hn.
    destruct (stream st); [reflexivity|discriminate].
  - intros st' Hc Hd. rewrite disconnect_connected in Hd by assumption.
    unfold bind at 1 in Hd.
    destruct (disconnect_notify st) as [[[]| |] s] eqn:Hn;
      try discriminate;
      [|now apply disconnect_notify_not_blocked in Hn].
    unfold disconnect_wait in Hd. unfold bind at 1 in Hd.
    destruct (await (fun s0 => negb (is_connected s0)) s)
      as [[[]| |] s1] eqn:Ha.
    + unfold bind, logger_debug, modify in Hd. discriminate.
    + discriminate.
    + inversion Hd; subst. apply await_blocked in Ha.
      apply negb_false_iff in Ha. unfold connected. now rewrite Ha.
  - intros st' Hd. apply disconnect_returns in Hd.
    unfold connected. now rewrite Hd.
Qed.

Lemma connected_iff_stream_witness :
  connected client_notified = (Return true, client_notified) /\
  connected client_closed = (Return false, client_closed).
Proof.
  split.
  - apply (proj1 (proj2 (proj2 (proj2 (connected_iff_stream client_idle))))
             client_notified); vm_compute; reflexivity.
  - apply (proj2 (proj2 (proj2 (proj2 (proj2
             (connected_iff_stream
                (client_of [Received AckClientDisconnect]))))))
             client_closed).
    vm_compute. reflexivity.
Defined.

(** ** The constructor *)

(** C8 (as stated, refuted): a client whose constructor has returned is
    connected, with its receive loop scheduled, although no [connect] was
    called by the caller. *)
Lemma constructed_is_connected :
  __init__ "localhost" 9000 (serving []) = (Return tt, client_idle) /\
  connected client_idle = (Return true, client_idle) /\
  receive_task client_idle = Scheduled.
Proof.
  vm_compute. repeat split.
Qed.

(** C8 (amended): the constructor calls [connect] itself.  When the server
    accepts, it returns with the stream set and the receive loop scheduled;
    when the connection is refused, it raises the recorded error, which
    leaves the exception queue, and there is no stream; while the server
    does not answer, it does not return. *)
Theorem init_connects (h : string) (p : Z) (peer : Peer) :
  match peer_reply peer with
  | Accepted =>
      exists st,
        __init__ h p peer = (Return tt, st) /\
        connected st = (Return true, st) /\
        receive_task st = Scheduled /\
        exception_queue st = [] /\ message_queue st = []
  | Refused e =>
      exists st,
        __init__ h p peer = (Raise e, st) /\
        connected st = (Return false, st) /\
        receive_task st = NotScheduled /\
        exception_queue st = []
  | Unanswered =>
      exists st,
        __init__ h p peer = (Blocked, st) /\
        connected st = (Return false, st) /\
        receive_task st = NotScheduled
  end.
Proof.
  destruct (peer_reply peer) eqn:Hr.
  - destruct (init_accepted h p peer Hr)
      as (st & Hi & Hs & Hq & Hm & Ht & _).
    exists st. unfold connected, is_connected. rewrite Hs. auto.
  - destruct (init_refused h p peer e Hr) as (st & Hi & Hs & Hq & Ht & _).
    exists st. unfold connected, is_connected. rewrite Hs. auto.
  - destruct (init_unanswered h p peer Hr) as (st & Hi & Hs & Hq & Ht & _).
    exists st. unfold connected, is_connected. rewrite Hs. auto.
Qed.

(** ** One turn of the receive loop *)

Section ReactorStep.

Variable st : State.
Hypothesis Hrun : ioloop_running st = true.
Hypothesis Htask : receive_task st = Scheduled.
Hypothesis Hconn : is_connected st = true.

Lemma reactor_step_idle :
  wire_in st = [] -> reactor_step st = st.
Proof.
  intros Hw. unfold reactor_step. now rewrite Hrun, Htask, Hconn, Hw.
Qed.

Lemma reactor_step_message message rest :
  wire_in st = Received message :: rest ->
  isinstance_AckClientDisconnect message = false ->
  reactor_step st
    = set_message_queue (message_queue st ++ [message]) (set_wire_in rest st).
Proof.
  intros Hw Hm. unfold reactor_step, _receive_body.
  now rewrite Hrun, Htask, Hconn, Hw, Hm.
Qed.

Lemma reactor_step_ack rest :
  wire_in st = Received AckClientDisconnect :: rest ->
  reactor_step st
    = set_receive_task Finished
        (set_stream None
           (set_close_calls (S (close_calls st)) (set_wire_in rest st))).
Proof.
  intros Hw. unfold reactor_step, _receive_body.
  rewrite Hrun, Htask, Hconn, Hw. cbn [negb isinstance_AckClientDisconnect].
  unfold finally_return, stream_close.
  destruct st; cbn. now destruct close_fault0.
Qed.

Lemma reactor_step_failed e rest :
  wire_in st = Failed e :: rest ->
  reactor_step st
    = set_receive_task Finished
        (set_stream None
           (set_close_calls (S (close_calls st))
              (set_exception_queue (exception_queue st ++ [e])
                 (set_wire_in rest st)))).
Proof.
  intros Hw. unfold reactor_step, _receive_body.
  rewrite Hrun, Htask, Hconn, Hw. cbn [negb].
  unfold finally_return, bind, exception_queue_put, modify, stream_close.
  destruct st; cbn. now destruct close_fault0.
Qed.

End ReactorStep.

Lemma reactor_steps_finished (n : nat) (st : State) :
  receive_task st = Finished -> reactor_steps n st = st.
Proof.
  intros Ht. induction n as [|n IH]; cbn [reactor_steps]; [reflexivity|].
  now rewrite reactor_step_stops.
Qed.

Lemma reactor_steps_add (n k : nat) (st : State) :
  reactor_steps (n + k) st = reactor_steps k (reactor_steps n st).
Proof.
  revert st. induction n as [|n IH]; intros st; cbn [reactor_steps Nat.add].
  - reflexivity.
  - apply IH.
Qed.

(** ** The life-cycle invariant *)

Lemma lifecycle_connected (st : State) :
  lifecycle st -> is_connected st = true ->
  exception_queue st = [] /\ receive_task st = Scheduled /\
  close_calls st = 0 /\ ioloop_running st = true.
Proof.
  unfold lifecycle, is_connected. destruct (stream st); [auto|discriminate].
Qed.

Lemma lifecycle_not_connected (st : State) :
  lifecycle st -> is_connected st = false ->
  receive_task st = Finished /\ close_calls st = 1 /\
  List.length (exception_queue st) <= 1.
Proof.
  unfold lifecycle, is_connected. destruct (stream st); [discriminate|auto].
Qed.

Lemma lifecycle_reactor_step (st : State) :
  lifecycle st -> lifecycle (reactor_step st).
Proof.
  intros L. destruct (is_connected st) eqn:Hc.
  - destruct (lifecycle_connected st L Hc) as (Hq & Ht & Hk & Hr).
    destruct (wire_in st) as [|[message|e] rest] eqn:Hw.
    + now rewrite reactor_step_idle.
    + destruct (isinstance_AckClientDisconnect message) eqn:Hm.
      * destruct message; try discriminate.
        rewrite (reactor_step_ack st Hr Ht Hc rest Hw).
        unfold lifecycle. cbn. rewrite Hq, Hk. cbn. auto.
      * rewrite (reactor_step_message st Hr Ht Hc message rest Hw Hm).
        unfold lifecycle, is_connected in *. cbn.
        destruct (stream st); [auto|discriminate].
    + rewrite (reactor_step_failed st Hr Ht Hc e rest Hw).
      unfold lifecycle. cbn. rewrite Hq, Hk. cbn. auto.
  - destruct (lifecycle_not_connected st L Hc) as (Ht & _).
    now rewrite reactor_step_stops.
Qed.

Lemma lifecycle_reactor_steps (n : nat) (st : State) :
  lifecycle st -> lifecycle (reactor_steps n st).
Proof.
  revert st. induction n as [|n IH]; intros st L; cbn [reactor_steps].
  - exact L.
  - apply IH. now apply lifecycle_reactor_step.
Qed.

Lemma lifecycle_await (cond : State -> bool) (st : State) :
  lifecycle st -> lifecycle (snd (await cond st)).
Proof.
  intros L. destruct (await_steps cond st) as (k & Hk). rewrite Hk.
  now apply lifecycle_reactor_steps.
Qed.

Ltac lifecycle_same :=
  unfold lifecycle in *; cbn in *; assumption.

Lemma get_message_connected (timeout : option Q) (st : State) :
  exception_queue st = [] -> is_connected st = true ->
  get_message timeout st = message_queue_get timeout st.
Proof.
  intros Hq Hc. unfold get_message, bind, _check_for_errors, connected.
  rewrite Hq, Hc. reflexivity.
Qed.

Lemma lifecycle_pop_error (st : State) e rest :
  lifecycle st -> exception_queue st = e :: rest ->
  lifecycle (set_exception_queue rest st).
Proof.
  intros L Hq. unfold lifecycle in *. cbn. destruct (stream st).
  - destruct L as (Hq' & _). congruence.
  - rewrite Hq in L. cbn in L. destruct L as (Ht & Hk & Hl).
    repeat split; auto. lia.
Qed.

Lemma lifecycle_send_message (message : Message) (st : State) :
  lifecycle st -> lifecycle (snd (send_message message st)).
Proof.
  intros L. destruct (exception_queue st) as [|e rest] eqn:Hq.
  - destruct (is_connected st) eqn:Hc.
    + rewrite send_message_connected by assumption.
      unfold stream_send_message. destruct (send_fault st); cbn [snd].
      * exact L.
      * lifecycle_same.
    + now rewrite send_message_not_connected.
  - rewrite (send_message_pending message st e rest Hq). cbn [snd].
    now apply lifecycle_pop_error with e.
Qed.

Lemma lifecycle_take (st : State) :
  lifecycle st -> lifecycle (snd (message_queue_take st)).
Proof.
  intros L. unfold message_queue_take.
  destruct (message_queue st); cbn [snd]; [exact L|lifecycle_same].
Qed.

Lemma lifecycle_message_queue_get (timeout : option Q) (st : State) :
  lifecycle st -> lifecycle (snd (message_queue_get timeout st)).
Proof.
  intros L. unfold message_queue_get. destruct timeout as [t|].
  - destruct (timeout_negative t); [exact L|now apply lifecycle_take].
  - unfold bind. pose proof (lifecycle_await has_message st L) as La.
    destruct (await has_message st) as [[[]| |] s]; cbn [snd] in *;
      [now apply lifecycle_take|exact La|exact La].
Qed.

Lemma lifecycle_get_message (timeout : option Q) (st : State) :
  lifecycle st -> lifecycle (snd (get_message timeout st)).
Proof.
  intros L. destruct (exception_queue st) as [|e rest] eqn:Hq.
  - destruct (is_connected st) eqn:Hc.
    + rewrite get_message_connected by assumption.
      now apply lifecycle_message_queue_get.
    + now rewrite get_message_not_connected.
  - rewrite (get_message_pending timeout st e rest Hq). cbn [snd].
    now apply lifecycle_pop_error with e.
Qed.

Lemma lifecycle_disconnect_notify (st : State) :
  lifecycle st -> lifecycle (snd (disconnect_notify st)).
Proof.
  intros L.
  unfold disconnect_notify, bind, logger_debug, modify, stream_send_message.
  cbn [send_fault set_log].
  destruct (send_fault st); cbn [snd]; lifecycle_same.
Qed.

Lemma lifecycle_disconnect_wait (st : State) :
  lifecycle st -> lifecycle (snd (disconnect_wait st)).
Proof.
  intros L. unfold disconnect_wait. unfold bind at 1.
  pose proof (lifecycle_await (fun s => negb (is_connected s)) st L) as La.
  destruct (await (fun s => negb (is_connected s)) st)
    as [[[]| |] s] eqn:Ha; cbn [snd] in *; try exact La.
  apply await_returns in Ha. apply negb_true_iff in Ha.
  unfold bind, logger_debug, modify. cbn [snd].
  unfold lifecycle, is_connected in *. cbn.
  destruct (stream s); [discriminate|exact La].
Qed.

Lemma lifecycle_disconnect (st : State) :
  lifecycle st -> lifecycle (snd (disconnect st)).
Proof.
  intros L. destruct (is_connected st) eqn:Hc.
  - rewrite disconnect_connected by assumption. unfold bind at 1.
    pose proof (lifecycle_disconnect_notify st L) as Ln.
    destruct (disconnect_notify st) as [[[]| |] s]; cbn [snd] in *;
      try exact Ln.
    now apply lifecycle_disconnect_wait.
  - rewrite disconnect_not_connected by assumption. cbn [snd].
    lifecycle_same.
Qed.

Lemma lifecycle_del (st : State) :
  lifecycle st -> lifecycle (snd (__del__ st)).
Proof.
  intros L. unfold __del__. unfold bind at 1.
  unfold logger_debug at 1. unfold modify at 1.
  assert (L' : lifecycle
                 (set_log
                    (log st ++ [Debug "Garbage collection called for TCPClient"])
                    st))
    by lifecycle_same.
  revert L'.
  generalize (set_log
                (log st ++ [Debug "Garbage collection called for TCPClient"])
                st).
  intros s Ls. unfold bind, connected.
  destruct (is_connected s); [now apply lifecycle_disconnect|exact Ls].
Qed.

Lemma lifecycle_perform (a : Action) (st : State) :
  lifecycle st -> lifecycle (perform a st).
Proof.
  intros L. destruct a; cbn [perform].
  - exact L.
  - now apply lifecycle_send_message.
  - now apply lifecycle_get_message.
  - now apply lifecycle_disconnect.
  - now apply lifecycle_del.
  - now apply lifecycle_reactor_step.
  - lifecycle_same.
Qed.

Lemma lifecycle_init h p peer st :
  __init__ h p peer = (Return tt, st) -> lifecycle st.
Proof.
  intros Hi. destruct (peer_reply peer) eqn:Hr.
  - destruct (init_accepted h p peer Hr)
      as (st' & E & Hs & Hq & Hm & Ht & Hl & Hk & _).
    rewrite E in Hi. inversion Hi; subst.
    unfold lifecycle. rewrite Hs. auto.
  - destruct (init_refused h p peer e Hr) as (st' & E & _). congruence.
  - destruct (init_unanswered h p peer Hr) as (st' & E & _). congruence.
Qed.

Lemma reachable_lifecycle (st : State) : reachable st -> lifecycle st.
Proof.
  induction 1 as [h p peer st Hi|a st _ IH].
  - now apply lifecycle_init with h p peer.
  - now apply lifecycle_perform.
Qed.

(** ** Errors recorded by the reactor *)

Lemma not_connected_reports (st : State) :
  exception_queue st = [] -> is_connected st = false ->
  reports_not_connected st.
Proof.
  intros Hq Hc. split; intros.
  - now apply send_message_not_connected.
  - now apply get_message_not_connected.
Qed.

Lemma pending_error_not_connected (st : State) :
  lifecycle st -> exception_queue st <> [] -> is_connected st = false.
Proof.
  intros L Hq. destruct (is_connected st) eqn:Hc; [|reflexivity].
  now destruct (lifecycle_connected st L Hc) as (Hq' & _).
Qed.

Lemma pending_error_surfaces (st : State) e rest :
  lifecycle st -> exception_queue st = e :: rest ->
  rest = [] /\ is_connected st = false /\ surfaces_once e st.
Proof.
  intros L Hq.
  assert (Hc : is_connected st = false)
    by (apply pending_error_not_connected; [assumption|congruence]).
  destruct (lifecycle_not_connected st L Hc) as (_ & _ & Hl).
  rewrite Hq in Hl. cbn in Hl.
  assert (rest = []) by (destruct rest; [reflexivity|cbn in Hl; lia]).
  subst rest. split; [reflexivity|]. split; [assumption|].
  assert (R : reports_not_connected (set_exception_queue [] st))
    by (apply not_connected_reports; [reflexivity|exact Hc]).
  split.
  - intros message. exists (set_exception_queue [] st).
    rewrite (send_message_pending message st e [] Hq). auto.
  - intros timeout. exists (set_exception_queue [] st).
    rewrite (get_message_pending timeout st e [] Hq). auto.
Qed.

Lemma reachable_failure_step (st : State) e rest :
  reachable st -> is_connected st = true -> wire_in st = Failed e :: rest ->
  reactor_step st
    = set_receive_task Finished
        (set_stream None
           (set_close_calls 1
              (set_exception_queue [e] (set_wire_in rest st)))).
Proof.
  intros R Hc Hw. pose proof (reachable_lifecycle st R) as L.
  destruct (lifecycle_connected st L Hc) as (Hq & Ht & Hk & Hr).
  rewrite (reactor_step_failed st Hr Ht Hc e rest Hw). now rewrite Hq, Hk.
Qed.

Lemma reachable_ack_step (st : State) rest :
  reachable st -> is_connected st = true ->
  wire_in st = Received AckClientDisconnect :: rest ->
  reactor_step st
    = set_receive_task Finished
        (set_stream None (set_close_calls 1 (set_wire_in rest st))).
Proof.
  intros R Hc Hw. pose proof (reachable_lifecycle st R) as L.
  destruct (lifecycle_connected st L Hc) as (Hq & Ht & Hk & Hr).
  rewrite (reactor_step_ack st Hr Ht Hc rest Hw). now rewrite Hk.
Qed.

(** C4: an error recorded by the reactor is raised by the next
    [send_message] or [get_message], which takes it off the exception queue,
    and every call after that raises [NotConnected].  This holds for a
    failure of the receive loop, for any error found pending on a
    constructed client (there is never more than one), and for a refused
    connection, whose error the constructor raises itself. *)
Theorem error_surfaces_once :
  (forall st e rest,
     reachable st -> is_connected st = true ->
     wire_in st = Failed e :: rest ->
     exception_queue (reactor_step st) = [e] /\
     surfaces_once e (reactor_step st)) /\
  (forall st e rest,
     reachable st -> exception_queue st = e :: rest ->
     rest = [] /\ surfaces_once e st) /\
  (forall h p peer e,
     peer_reply peer = Refused e ->
     exists st,
       __init__ h p peer = (Raise e, st) /\
       exception_queue st = [] /\ reports_not_connected st).
Proof.
  split; [|split].
  - intros st e rest R Hc Hw.
    assert (L : lifecycle (reactor_step st))
      by (apply lifecycle_reactor_step; now apply reachable_lifecycle).
    assert (Hq : exception_queue (reactor_step st) = [e])
      by (now rewrite (reachable_failure_step st e rest R Hc Hw)).
    split; [exact Hq|].
    now destruct (pending_error_surfaces _ e [] L Hq) as (_ & _ & H).
  - intros st e rest R Hq.
    destruct (pending_error_surfaces st e rest (reachable_lifecycle st R) Hq)
      as (H1 & _ & H2).
    auto.
  - intros h p peer e Hr.
    destruct (init_refused h p peer e Hr) as (st & Hi & Hs & Hq & _).
    exists st. split; [exact Hi|]. split; [exact Hq|].
    apply not_connected_reports; [exact Hq|].
    now apply is_connected_false.
Qed.

Lemma client_failing_reachable : reachable client_failing.
Proof.
  apply (reach_init "localhost" 9000 (serving [Failed StreamClosedError])).
  vm_compute. reflexivity.
Defined.

Lemma error_surfaces_once_witness :
  exception_queue (reactor_step client_failing) = [StreamClosedError] /\
  surfaces_once StreamClosedError (reactor_step client_failing).
Proof.
  apply (proj1 error_surfaces_once client_failing StreamClosedError []).
  - exact client_failing_reachable.
  - vm_compute. reflexivity.
  - vm_compute. reflexivity.
Defined.

(** ** The ends of the receive loop *)

(** C6: when the receive loop is resumed with a failure of the stream, it
    puts the failure on the exception queue, closes the stream, clears the
    stream reference (so [connected] answers false) and returns; and no
    constructed client ever has an error pending while it has a stream. *)
Theorem receive_failure_disconnects :
  (forall st e rest,
     reachable st -> is_connected st = true ->
     wire_in st = Failed e :: rest ->
     exception_queue (reactor_step st) = exception_queue st ++ [e] /\
     close_calls (reactor_step st) = S (close_calls st) /\
     stream (reactor_step st) = None /\
     connected (reactor_step st) = (Return false, reactor_step st) /\
     receive_task (reactor_step st) = Finished /\
     message_queue (reactor_step st) = message_queue st) /\
  (forall st,
     reachable st -> exception_queue st <> [] ->
     stream st = None /\ connected st = (Return false, st)).
Proof.
  split.
  - intros st e rest R Hc Hw. pose proof (reachable_lifecycle st R) as L.
    destruct (lifecycle_connected st L Hc) as (Hq & Ht & Hk & Hr).
    rewrite (reactor_step_failed st Hr Ht Hc e rest Hw).
    cbn. repeat split.
  - intros st R Hq.
    pose proof (pending_error_not_connected st (reachable_lifecycle st R) Hq)
      as Hc.
    split; [now apply is_connected_false|].
    unfold connected. now rewrite Hc.
Qed.

Lemma receive_failure_disconnects_witness :
  exception_queue (reactor_step client_failing)
    = exception_queue client_failing ++ [StreamClosedError] /\
  close_calls (reactor_step client_failing) = S (close_calls client_failing) /\
  stream (reactor_step client_failing) = None /\
  connected (reactor_step client_failing)
    = (Return false, reactor_step client_failing) /\
  receive_task (reactor_step client_failing) = Finished /\
  message_queue (reactor_step client_failing) = message_queue client_failing.
Proof.
  apply (proj1 receive_failure_disconnects client_failing
           StreamClosedError []).
  - exact client_failing_reachable.
  - vm_compute. reflexivity.
  - vm_compute. reflexivity.
Defined.

Lemma no_ack_cons (message : Message) (ms : list Message) :
  no_ack (message :: ms) = true <->
  isinstance_AckClientDisconnect message = false /\ no_ack ms = true.
Proof.
  unfold no_ack. cbn [forallb]. rewrite andb_true_iff, negb_true_iff.
  reflexivity.
Qed.

(** A receive loop that has returned has seen an acknowledgement or a
    failure, after messages it queued. *)
Lemma receive_loop_ends (n : nat) (st : State) :
  lifecycle st -> is_connected st = true ->
  receive_task (reactor_steps n st) = Finished ->
  exists ms rest,
    no_ack ms = true /\
    ((wire_in st = map Received ms ++ Received AckClientDisconnect :: rest /\
      exception_queue (reactor_steps n st) = []) \/
     (exists e,
        wire_in st = map Received ms ++ Failed e :: rest /\
        exception_queue (reactor_steps n st) = [e])).
Proof.
  revert st. induction n as [|n IH]; intros st L Hc Hf;
    destruct (lifecycle_connected st L Hc) as (Hq & Ht & Hk & Hr).
  - cbn [reactor_steps] in Hf. congruence.
  - cbn [reactor_steps] in *.
    destruct (wire_in st) as [|[message|e] rest] eqn:Hw.
    + rewrite (reactor_step_idle st Hr Ht Hc Hw) in *.
      destruct (IH st L Hc Hf) as (ms & rest' & Hms & H).
      rewrite Hw in H. exists ms, rest'. auto.
    + destruct (isinstance_AckClientDisconnect message) eqn:Hm.
      * destruct message; try discriminate.
        exists [], rest. split; [reflexivity|]. left.
        split; [reflexivity|].
        rewrite (reactor_step_ack st Hr Ht Hc rest Hw).
        rewrite reactor_steps_finished by reflexivity. exact Hq.
      * rewrite (reactor_step_message st Hr Ht Hc message rest Hw Hm) in *.
        set (st1 := set_message_queue (message_queue st ++ [message])
                      (set_wire_in rest st)) in *.
        assert (L1 : lifecycle st1) by (subst st1; lifecycle_same).
        assert (Hc1 : is_connected st1 = true) by exact Hc.
        destruct (IH st1 L1 Hc1 Hf) as (ms & rest' & Hms & H).
        exists (message :: ms), rest'.
        split; [now apply no_ack_cons|].
        assert (Hw1 : wire_in st1 = rest) by reflexivity.
        rewrite Hw1 in H.
        destruct H as [[H1 H2]|(e & H1 & H2)].
        -- left. split; [now rewrite H1|exact H2].
        -- right. exists e. split; [now rewrite H1|exact H2].
    + exists [], rest. split; [reflexivity|]. right. exists e.
      split; [reflexivity|].
      rewrite (reactor_step_failed st Hr Ht Hc e rest Hw).
      rewrite reactor_steps_finished by reflexivity.
      cbn. now rewrite Hq.
Qed.

Lemma reachable_close_calls (st : State) :
  reachable st -> close_calls st <= 1.
Proof.
  intros R. pose proof (reachable_lifecycle st R) as L.
  unfold lifecycle in L. destruct (stream st).
  - destruct L as (_ & _ & Hk & _). lia.
  - destruct L as (_ & Hk & _). lia.
Qed.

(** C5: when the receive loop is resumed with [AckClientDisconnect] it calls
    the stream's [close] once, whatever [close] does, clears the stream
    reference (so [connected] answers false), records no error and returns;
    over the life of a client [close] is called at most once; and a receive
    loop that has returned without recording an error has returned on an
    acknowledgement, after the messages that preceded it. *)
Theorem receive_ack_closes_once :
  (forall st rest,
     reachable st -> is_connected st = true ->
     wire_in st = Received AckClientDisconnect :: rest ->
     close_calls (reactor_step st) = S (close_calls st) /\
     close_calls (reactor_step st) = 1 /\
     stream (reactor_step st) = None /\
     connected (reactor_step st) = (Return false, reactor_step st) /\
     receive_task (reactor_step st) = Finished /\
     exception_queue (reactor_step st) = [] /\
     message_queue (reactor_step st) = message_queue st) /\
  (forall st, reachable st -> close_calls st <= 1) /\
  (forall st n,
     reachable st -> is_connected st = true ->
     receive_task (reactor_steps n st) = Finished ->
     exception_queue (reactor_steps n st) = [] ->
     exists ms rest,
       no_ack ms = true /\
       wire_in st = map Received ms ++ Received AckClientDisconnect :: rest).
Proof.
  split; [|split].
  - intros st rest R Hc Hw. pose proof (reachable_lifecycle st R) as L.
    destruct (lifecycle_connected st L Hc) as (Hq & Ht & Hk & Hr).
    rewrite (reactor_step_ack st Hr Ht Hc rest Hw).
    cbn. rewrite Hk, Hq. repeat split.
  - apply reachable_close_calls.
  - intros st n R Hc Hf Hq.
    destruct (receive_loop_ends n st (reachable_lifecycle st R) Hc Hf)
      as (ms & rest & Hms & [[Hw _]|(e & _ & He)]).
    + now exists ms, rest.
    + congruence.
Qed.

Lemma client_acked_reachable : reachable client_acked.
Proof.
  apply (reach_init "localhost" 9000
           (serving [Received m1; Received AckClientDisconnect])).
  vm_compute. reflexivity.
Defined.

Lemma receive_ack_closes_once_witness :
  (close_calls (reactor_step (reactor_step client_acked))
     = S (close_calls (reactor_step client_acked)) /\
   close_calls (reactor_step (reactor_step client_acked)) = 1 /\
   stream (reactor_step (reactor_step client_acked)) = None /\
   connected (reactor_step (reactor_step client_acked))
     = (Return false, reactor_step (reactor_step client_acked)) /\
   receive_task (reactor_step (reactor_step client_acked)) = Finished /\
   exception_queue (reactor_step (reactor_step client_acked)) = [] /\
   message_queue (reactor_step (reactor_step client_acked))
     = message_queue (reactor_step client_acked)) /\
  (exists ms rest,
     no_ack ms = true /\
     wire_in client_acked
       = map Received ms ++ Received AckClientDisconnect :: rest).
Proof.
  split.
  - apply (proj1 receive_ack_closes_once (reactor_step client_acked) []).
    + apply (reach_step Turn). exact client_acked_reachable.
    + vm_compute. reflexivity.
    + vm_compute. reflexivity.
  - apply (proj2 (proj2 receive_ack_closes_once) client_acked 2).
    + exact client_acked_reachable.
    + vm_compute. reflexivity.
    + vm_compute. reflexivity.
    + vm_compute. reflexivity.
Defined.

(** ** The message queue *)

Lemma set_message_queue_twice (a b : list Message) (st : State) :
  set_message_queue a (set_message_queue b st) = set_message_queue a st.
Proof. reflexivity. Qed.

Lemma await_holds (cond : State -> bool) (st : State) :
  cond st = true -> await cond st = (Return tt, st).
Proof.
  intros H. unfold await. cbn [run_until]. now rewrite H.
Qed.

Lemma message_queue_get_head (timeout : option Q) (st : State) message q :
  timeout_valid timeout = true -> message_queue st = message :: q ->
  message_queue_get timeout st
    = (Return (Some message), set_message_queue q st).
Proof.
  intros Ht Hm. unfold message_queue_get. destruct timeout as [t|].
  - cbn [timeout_valid] in Ht. apply negb_true_iff in Ht. rewrite Ht.
    unfold message_queue_take. now rewrite Hm.
  - unfold bind. rewrite await_holds by (unfold has_message; now rewrite Hm).
    unfold message_queue_take. now rewrite Hm.
Qed.

(** Calling [get_message] once per queued message returns the queue from its
    head. *)
Lemma get_messages_queue (timeout : option Q) (ms tail : list Message) :
  timeout_valid timeout = true ->
  forall st,
    exception_queue st = [] -> is_connected st = true ->
    message_queue st = ms ++ tail ->
    get_messages timeout (List.length ms) st
      = (ms, set_message_queue tail st).
Proof.
  intros Ht. induction ms as [|message ms IH]; intros st Hq Hc Hm.
  - cbn [List.length get_messages]. cbn [app] in Hm. rewrite <- Hm.
    now destruct st.
  - cbn [List.length get_messages].
    rewrite get_message_connected by assumption.
    rewrite (message_queue_get_head timeout st message (ms ++ tail) Ht Hm).
    rewrite (IH (set_message_queue (ms ++ tail) st)) by auto.
    now rewrite set_message_queue_twice.
Qed.

(** The receive loop queues the messages that arrive, in their order. *)
Lemma reactor_steps_messages (ms : list Message) (rest : list Event) :
  no_ack ms = true ->
  forall st,
    ioloop_running st = true -> receive_task st = Scheduled ->
    is_connected st = true ->
    wire_in st = map Received ms ++ rest ->
    reactor_steps (List.length ms) st
      = set_message_queue (message_queue st ++ ms) (set_wire_in rest st).
Proof.
  induction ms as [|message ms IH]; intros Hms st Hr Ht Hc Hw.
  - cbn [List.length reactor_steps]. cbn [map app] in Hw.
    rewrite app_nil_r, <- Hw. now destruct st.
  - apply no_ack_cons in Hms. destruct Hms as [Hm Hms].
    cbn [List.length reactor_steps]. cbn [map app] in Hw.
    rewrite (reactor_step_message st Hr Ht Hc message _ Hw Hm).
    rewrite IH by auto. cbn [message_queue set_message_queue set_wire_in].
    rewrite <- app_assoc. reflexivity.
Qed.

Lemma reactor_steps_S (n : nat) (st : State) :
  reactor_steps (S n) st = reactor_step (reactor_steps n st).
Proof.
  replace (S n) with (n + 1) by lia. now rewrite reactor_steps_add.
Qed.

(** C1 (as stated, refuted): in scenario B, once the receive loop has
    handled [m1], [m2], [m3] and the acknowledgement, the three messages sit
    on the message queue and [get_message] raises [NotConnected] without
    returning any of them. *)
Lemma queued_messages_not_retrievable :
  client_B_closed = reactor_steps 4 (client_of scenario_B) /\
  message_queue client_B_closed = [m1; m2; m3] /\
  exception_queue client_B_closed = [] /\
  get_message None client_B_closed = (Raise NotConnected, client_B_closed) /\
  get_message (Some 1%Q) client_B_closed
    = (Raise NotConnected, client_B_closed) /\
  get_messages None 3 client_B_closed = ([], client_B_closed).
Proof.
  vm_compute. repeat split.
Qed.

(** C1 (amended): the messages that arrive before an acknowledgement are
    queued in their order, and as long as the receive loop has not handled
    the acknowledgement, [get_message] returns them in that order; once it
    has, the client is not connected, the messages are still on the queue,
    and [get_message] raises [NotConnected]. *)
Theorem messages_before_ack
  (st : State) (ms : list Message) (rest : list Event) (timeout : option Q) :
  reachable st -> is_connected st = true ->
  no_ack ms = true -> timeout_valid timeout = true ->
  wire_in st = map Received ms ++ Received AckClientDisconnect :: rest ->
  (is_connected (reactor_steps (List.length ms) st) = true /\
   message_queue (reactor_steps (List.length ms) st)
     = message_queue st ++ ms /\
   fst (get_messages timeout (List.length (message_queue st ++ ms))
          (reactor_steps (List.length ms) st))
     = message_queue st ++ ms) /\
  (is_connected (reactor_steps (S (List.length ms)) st) = false /\
   message_queue (reactor_steps (S (List.length ms)) st)
     = message_queue st ++ ms /\
   forall timeout',
     get_message timeout' (reactor_steps (S (List.length ms)) st)
       = (Raise NotConnected, reactor_steps (S (List.length ms)) st)).
Proof.
  intros R Hc Hms Ht Hw. pose proof (reachable_lifecycle st R) as L.
  destruct (lifecycle_connected st L Hc) as (Hq & Htask & Hk & Hr).
  pose proof (reactor_steps_messages ms _ Hms st Hr Htask Hc Hw) as E.
  split.
  - rewrite E. split; [exact Hc|]. split; [reflexivity|].
    rewrite (get_messages_queue timeout (message_queue st ++ ms) [] Ht).
    + reflexivity.
    + exact Hq.
    + exact Hc.
    + cbn. now rewrite app_nil_r.
  - rewrite reactor_steps_S, E.
    rewrite reactor_step_ack with (rest := rest);
      [|exact Hr|exact Htask|exact Hc|reflexivity].
    split; [reflexivity|]. split; [reflexivity|].
    intros timeout'. apply get_message_not_connected; [exact Hq|reflexivity].
Qed.

Lemma client_B_reachable : reachable (client_of scenario_B).
Proof.
  apply (reach_init "localhost" 9000 (serving scenario_B)).
  vm_compute. reflexivity.
Defined.

Lemma messages_before_ack_witness :
  (is_connected (reactor_steps 3 (client_of scenario_B)) = true /\
   message_queue (reactor_steps 3 (client_of scenario_B))
     = message_queue (client_of scenario_B) ++ [m1; m2; m3] /\
   fst (get_messages None
          (List.length (message_queue (client_of scenario_B) ++ [m1; m2; m3]))
          (reactor_steps 3 (client_of scenario_B)))
     = message_queue (client_of scenario_B) ++ [m1; m2; m3]) /\
  (is_connected (reactor_steps 4 (client_of scenario_B)) = false /\
   message_queue (reactor_steps 4 (client_of scenario_B))
     = message_queue (client_of scenario_B) ++ [m1; m2; m3] /\
   forall timeout',
     get_message timeout' (reactor_steps 4 (client_of scenario_B))
       = (Raise NotConnected, reactor_steps 4 (client_of scenario_B))).
Proof.
  apply (messages_before_ack (client_of scenario_B) [m1; m2; m3] [] None).
  - exact client_B_reachable.
  - vm_compute. reflexivity.
  - vm_compute. reflexivity.
  - vm_compute. reflexivity.
  - vm_compute. reflexivity.
Defined.

(** ** Delivery in arrival order *)

Lemma enqueued_app (a b : list Event) :
  enqueued (a ++ b) = enqueued a ++ enqueued b.
Proof.
  induction a as [|[message|e] a IH]; cbn [app enqueued].
  - reflexivity.
  - destruct (isinstance_AckClientDisconnect message);
      [exact IH|cbn [app]; now rewrite IH].
  - exact IH.
Qed.

Lemma enqueued_messages (ms : list Message) :
  no_ack ms = true -> enqueued (map Received ms) = ms.
Proof.
  induction ms as [|message ms IH]; intros H; [reflexivity|].
  apply no_ack_cons in H. destruct H as [Hm Hms].
  cbn [map enqueued]. rewrite Hm. now rewrite IH.
Qed.

Lemma delivers_same (st st' : State) :
  wire_in st' = wire_in st -> message_queue st' = message_queue st ->
  delivers st [] st'.
Proof.
  intros Hw Hm. exists []. rewrite Hw, Hm. cbn. now rewrite app_nil_r.
Qed.

Lemma delivers_trans (st1 st2 st3 : State) (d1 d2 : list Message) :
  delivers st1 d1 st2 -> delivers st2 d2 st3 ->
  delivers st1 (d1 ++ d2) st3.
Proof.
  intros (c1 & Hw1 & Hm1) (c2 & Hw2 & Hm2). exists (c1 ++ c2). split.
  - now rewrite Hw1, Hw2, app_assoc.
  - rewrite enqueued_app, app_assoc, Hm1, <- app_assoc, Hm2.
    now rewrite app_assoc.
Qed.

Lemma delivers_reactor_step (st : State) : delivers st [] (reactor_step st).
Proof.
  unfold reactor_step.
  destruct (ioloop_running st); [|now apply delivers_same].
  destruct (receive_task st); try now apply delivers_same.
  destruct (is_connected st) eqn:Hc; cbn [negb]; [|now apply delivers_same].
  destruct (wire_in st) as [|[message|e] rest] eqn:Hw;
    [now apply delivers_same| |].
  - unfold _receive_body.
    destruct (isinstance_AckClientDisconnect message) eqn:Hm.
    + exists [Received message]. cbn [enqueued]. rewrite Hm, Hw.
      unfold finally_return, stream_close.
      destruct (close_fault (set_wire_in rest st)); cbn;
        now rewrite app_nil_r.
    + exists [Received message]. cbn [enqueued]. rewrite Hm, Hw.
      cbn. auto.
  - exists [Failed e]. rewrite Hw. unfold _receive_body, finally_return.
    unfold bind, exception_queue_put, modify, stream_close.
    cbn. destruct (close_fault st); cbn; now rewrite app_nil_r.
Qed.

Lemma delivers_reactor_steps (n : nat) (st : State) :
  delivers st [] (reactor_steps n st).
Proof.
  revert st. induction n as [|n IH]; intros st; cbn [reactor_steps].
  - now apply delivers_same.
  - apply (delivers_trans st (reactor_step st) _ [] []).
    + apply delivers_reactor_step.
    + apply IH.
Qed.

Lemma delivers_await (cond : State -> bool) (st : State) :
  delivers st [] (snd (await cond st)).
Proof.
  destruct (await_steps cond st) as (k & Hk). rewrite Hk.
  apply delivers_reactor_steps.
Qed.

Lemma delivers_take (st : State) :
  match message_queue_take st with
  | (Return (Some message), st') => delivers st [message] st'
  | (_, st') => delivers st [] st'
  end.
Proof.
  unfold message_queue_take. destruct (message_queue st) eqn:Hm.
  - now apply delivers_same.
  - exists []. split; [reflexivity|].
    cbn. now rewrite Hm, app_nil_r.
Qed.

Lemma delivers_message_queue_get (timeout : option Q) (st : State) :
  match message_queue_get timeout st with
  | (Return (Some message), st') => delivers st [message] st'
  | (_, st') => delivers st [] st'
  end.
Proof.
  unfold message_queue_get. destruct timeout as [t|].
  - destruct (timeout_negative t).
    + now apply delivers_same.
    + apply delivers_take.
  - unfold bind. pose proof (delivers_await has_message st) as Ha.
    destruct (await has_message st) as [[[]| |] s]; cbn [snd] in Ha;
      try exact Ha.
    pose proof (delivers_take s) as Hk.
    destruct (message_queue_take s) as [[[message|]| |] s'];
      try exact (delivers_trans st s s' [] [] Ha Hk).
    exact (delivers_trans st s s' [] [message] Ha Hk).
Qed.

Lemma delivers_get_message (timeout : option Q) (st : State) :
  match get_message timeout st with
  | (Return (Some message), st') => delivers st [message] st'
  | (_, st') => delivers st [] st'
  end.
Proof.
  destruct (exception_queue st) as [|e rest] eqn:Hq.
  - destruct (is_connected st) eqn:Hc.
    + rewrite get_message_connected by assumption.
      apply delivers_message_queue_get.
    + rewrite get_message_not_connected by assumption.
      now apply delivers_same.
  - rewrite (get_message_pending timeout st e rest Hq).
    now apply delivers_same.
Qed.

Lemma delivers_send_message (message : Message) (st : State) :
  delivers st [] (snd (send_message message st)).
Proof.
  destruct (exception_queue st) as [|e rest] eqn:Hq.
  - destruct (is_connected st) eqn:Hc.
    + rewrite send_message_connected by assumption.
      unfold stream_send_message.
      destruct (send_fault st); now apply delivers_same.
    + rewrite send_message_not_connected by assumption.
      now apply delivers_same.
  - rewrite (send_message_pending message st e rest Hq).
    now apply delivers_same.
Qed.

Lemma delivers_disconnect (st : State) :
  delivers st [] (snd (disconnect st)).
Proof.
  unfold disconnect, connected. unfold bind at 1.
  destruct (is_connected st); cbn [negb]; [|now apply delivers_same].
  unfold bind at 1.
  assert (Hn : delivers st [] (snd (disconnect_notify st))).
  { unfold disconnect_notify, bind, logger_debug, modify,
      stream_send_message. cbn [send_fault set_log].
    destruct (send_fault st); now apply delivers_same. }
  destruct (disconnect_notify st) as [[[]| |] s]; cbn [snd] in *;
    try exact Hn.
  unfold disconnect_wait. unfold bind at 1.
  pose proof (delivers_await (fun s0 => negb (is_connected s0)) s) as Ha.
  destruct (await (fun s0 => negb (is_connected s0)) s) as [[[]| |] s'];
    cbn [snd] in *;
    exact (delivers_trans st s s' [] [] Hn Ha).
Qed.

Lemma delivers_del (st : State) : delivers st [] (snd (__del__ st)).
Proof.
  unfold __del__. unfold bind at 1.
  unfold logger_debug at 1. unfold modify at 1.
  set (s := set_log _ st).
  assert (Hs : delivers st [] s) by now apply delivers_same.
  unfold bind, connected. destruct (is_connected s); [|exact Hs].
  exact (delivers_trans st s _ [] [] Hs (delivers_disconnect s)).
Qed.

Lemma delivers_perform (a : Action) (st : State) :
  (forall timeout, a <> Call_get_message timeout) ->
  delivers st [] (perform a st).
Proof.
  intros Ha. destruct a as [|m|t| | | |sf cf]; cbn [perform].
  - now apply delivers_same.
  - apply delivers_send_message.
  - now destruct (Ha t).
  - apply delivers_disconnect.
  - apply delivers_del.
  - apply delivers_reactor_step.
  - now apply delivers_same.
Qed.

Lemma delivers_run (schedule : list Action) (st : State) :
  delivers st (fst (run schedule st)) (snd (run schedule st)).
Proof.
  revert st. induction schedule as [|a schedule IH]; intros st.
  - now apply delivers_same.
  - assert (Other : (forall timeout, a <> Call_get_message timeout) ->
                    run (a :: schedule) st = run schedule (perform a st))
      by (intros Ha; destruct a as [|m|t| | | |sf cf]; try reflexivity;
          now destruct (Ha t)).
    assert (Hcase : (exists t, a = Call_get_message t) \/
                    (forall t, a <> Call_get_message t))
      by (destruct a as [|m|t| | | |sf cf];
          try (right; discriminate); left; now exists t).
    destruct Hcase as [[timeout ->]|Ha].
    + cbn [run]. pose proof (delivers_get_message timeout st) as Hg.
      destruct (get_message timeout st) as [[[message|]| |] s];
        try exact (delivers_trans st s _ [] _ Hg (IH s)).
      pose proof (IH s) as Hs. destruct (run schedule s) as [ms s'].
      exact (delivers_trans st s s' [message] ms Hg Hs).
    + rewrite (Other Ha).
      exact (delivers_trans st (perform a st) _ [] _
               (delivers_perform a st Ha) (IH (perform a st))).
Qed.

(** C2: whatever the application and the reactor do, and in whatever order,
    the messages that [get_message] has returned, followed by those still on
    the message queue, are the messages that were on the queue followed by
    the messages other than the acknowledgement that the receive loop took
    off the wire, in wire order; and when messages arrive on a connected
    client with an empty queue, as many calls of [get_message] return those
    messages in their order of arrival and leave the queue empty. *)
Theorem get_message_arrival_order :
  (forall schedule st,
     exists consumed,
       wire_in st = consumed ++ wire_in (snd (run schedule st)) /\
       message_queue st ++ enqueued consumed
         = fst (run schedule st) ++ message_queue (snd (run schedule st))) /\
  (forall st ms rest timeout,
     reachable st -> is_connected st = true ->
     no_ack ms = true -> timeout_valid timeout = true ->
     message_queue st = [] ->
     wire_in st = map Received ms ++ rest ->
     message_queue (reactor_steps (List.length ms) st) = ms /\
     get_messages timeout (List.length ms)
       (reactor_steps (List.length ms) st)
       = (ms, set_message_queue [] (reactor_steps (List.length ms) st))).
Proof.
  split.
  - intros schedule st. exact (delivers_run schedule st).
  - intros st ms rest timeout R Hc Hms Ht Hm Hw.
    pose proof (reachable_lifecycle st R) as L.
    destruct (lifecycle_connected st L Hc) as (Hq & Htask & Hk & Hr).
    rewrite (reactor_steps_messages ms rest Hms st Hr Htask Hc Hw).
    rewrite Hm. cbn [app message_queue set_message_queue].
    split; [reflexivity|].
    apply (get_messages_queue timeout ms [] Ht).
    + exact Hq.
    + exact Hc.
    + cbn. now rewrite app_nil_r.
Qed.

Lemma get_message_arrival_order_witness :
  message_queue (reactor_steps 3 (client_of scenario_B)) = [m1; m2; m3] /\
  get_messages (Some 1%Q) 3 (reactor_steps 3 (client_of scenario_B))
    = ([m1; m2; m3],
       set_message_queue [] (reactor_steps 3 (client_of scenario_B))).
Proof.
  apply (proj2 get_message_arrival_order (client_of scenario_B)
           [m1; m2; m3] [Received AckClientDisconnect] (Some 1%Q)).
  - exact client_B_reachable.
  - vm_compute. reflexivity.
  - vm_compute. reflexivity.
  - vm_compute. reflexivity.
  - vm_compute. reflexivity.
  - vm_compute. reflexivity.
Defined.

(** ** More on the public methods *)

Lemma run_until_step (cond : State -> bool) (n : nat) (st : State) :
  cond st = false ->
  run_until cond (S n) st = run_until cond n (reactor_step st).
Proof.
  intros Hc. cbn [run_until]. now rewrite Hc.
Qed.

Lemma run_until_done (cond : State -> bool) (n : nat) (st : State) :
  cond st = true -> run_until cond n st = (Return tt, st).
Proof.
  intros Hc. destruct n; cbn [run_until]; now rewrite Hc.
Qed.

Lemma run_until_stuck (cond : State -> bool) (n : nat) (st : State) :
  cond st = false -> reactor_step st = st ->
  run_until cond n st = (Blocked, st).
Proof.
  intros Hc Hs. induction n as [|n IH]; cbn [run_until]; rewrite Hc.
  - reflexivity.
  - now rewrite Hs.
Qed.

(** *** [get_message] and the receive loop *)

Lemma get_message_within_connected
  (turns later : nat) (timeout : option Q) (st : State) :
  exception_queue st = [] -> is_connected st = true ->
  get_message_within turns later timeout st
    = message_queue_get_within turns later timeout st.
Proof.
  intros Hq Hc. unfold get_message_within, bind, _check_for_errors, connected.
  rewrite Hq, Hc. reflexivity.
Qed.

(** [get_message] is the call during which the receive loop completes no
    iteration that the caller does not wait for. *)
Lemma get_message_within_0 (timeout : option Q) (st : State) :
  get_message_within 0 0 timeout st = get_message timeout st.
Proof.
  unfold get_message_within, get_message, bind.
  destruct (_check_for_errors st) as [[[]| |] s]; try reflexivity.
  destruct (connected s) as [[c| |] s']; try reflexivity.
  destruct (negb c); [reflexivity|].
  unfold message_queue_get_within, message_queue_get.
  destruct timeout as [t|].
  - destruct (timeout_negative t); [reflexivity|].
    cbn [run_until reactor_steps]. unfold message_queue_take, has_message.
    destruct (message_queue s') eqn:E; cbn [reactor_steps]; rewrite ?E;
      reflexivity.
  - unfold bind, modify. cbn [reactor_steps].
    destruct (await has_message s') as [[[]| |] s'']; reflexivity.
Qed.

(** A queue that holds a message still holds one after any number of turns
    of the reactor: only callers take messages off it. *)
Lemma has_message_reactor_steps (n : nat) (st : State) :
  has_message st = true -> has_message (reactor_steps n st) = true.
Proof.
  intros H. destruct (delivers_reactor_steps n st) as (consumed & _ & Hm).
  unfold has_message in *. cbn [app] in Hm.
  destruct (message_queue st) as [|message q]; [discriminate|].
  cbn [app] in Hm.
  destruct (message_queue (reactor_steps n st)); [discriminate|reflexivity].
Qed.

(** A timeout expires when nothing has been queued within it. *)
Lemma run_until_expires (turns : nat) (st : State) :
  has_message (reactor_steps turns st) = false ->
  run_until has_message turns st = (Blocked, reactor_steps turns st).
Proof.
  intros H.
  destruct (run_until_outcome has_message turns st)
    as (k & Hk & Hs & [[Ho Hc]|(Ho & Hn & Hc)]).
  - exfalso. replace turns with (k + (turns - k)) in H by lia.
    rewrite reactor_steps_add in H.
    rewrite has_message_reactor_steps in H by exact Hc. discriminate.
  - subst k. destruct (run_until has_message turns st) as [o s].
    cbn [fst snd] in *. now subst.
Qed.

(** A caller woken for [message] takes it, whatever the receive loop has
    queued behind it in the meantime. *)
Lemma take_after_arrivals (later : nat) (st : State) (message : Message) :
  message_queue st = [message] ->
  exists consumed,
    wire_in st = consumed ++ wire_in (reactor_steps later st) /\
    message_queue (reactor_steps later st) = message :: enqueued consumed /\
    message_queue_take (reactor_steps later st)
      = (Return (Some message),
         set_message_queue (enqueued consumed) (reactor_steps later st)).
Proof.
  intros Hm. destruct (delivers_reactor_steps later st) as (consumed & Hw & Hq).
  rewrite Hm in Hq. cbn [app] in Hq. exists consumed.
  split; [exact Hw|]. split; [now symmetry|].
  unfold message_queue_take. now rewrite <- Hq.
Qed.

Lemma first_arrival (st : State) (message : Message) (rest : list Event) :
  lifecycle st -> is_connected st = true -> message_queue st = [] ->
  wire_in st = Received message :: rest ->
  isinstance_AckClientDisconnect message = false ->
  has_message st = false /\
  reactor_step st = set_message_queue [message] (set_wire_in rest st) /\
  has_message (reactor_step st) = true.
Proof.
  intros L Hc Hm Hw Ha.
  destruct (lifecycle_connected st L Hc) as (Hq & Ht & Hk & Hr).
  assert (E : reactor_step st
              = set_message_queue [message] (set_wire_in rest st))
    by (rewrite (reactor_step_message st Hr Ht Hc message rest Hw Ha);
        now rewrite Hm).
  split; [unfold has_message; now rewrite Hm|].
  split; [exact E|]. now rewrite E.
Qed.

(** The call that sleeps on an empty queue and is woken by the arrival of
    [message]. *)
Lemma woken_by_arrival
  (st : State) (message : Message) (rest : list Event)
  (turns later : nat) (timeout : option Q) :
  lifecycle st -> is_connected st = true -> message_queue st = [] ->
  wire_in st = Received message :: rest ->
  isinstance_AckClientDisconnect message = false ->
  timeout_valid timeout = true ->
  (timeout <> None -> 0 < turns) ->
  exists consumed,
    rest = consumed ++ wire_in (reactor_steps later (reactor_step st)) /\
    message_queue (reactor_steps later (reactor_step st))
      = message :: enqueued consumed /\
    get_message_within turns later timeout st
      = (Return (Some message),
         set_message_queue (enqueued consumed)
           (reactor_steps later (reactor_step st))).
Proof.
  intros L Hc Hm Hw Ha Hv Hn.
  destruct (lifecycle_connected st L Hc) as (Hq & _).
  destruct (first_arrival st message rest L Hc Hm Hw Ha) as (H0 & E & H1).
  destruct (take_after_arrivals later (reactor_step st) message)
    as (consumed & Hcw & Hcq & Htake); [now rewrite E|].
  assert (W : wire_in (reactor_step st) = rest) by now rewrite E.
  rewrite W in Hcw.
  exists consumed. split; [exact Hcw|]. split; [exact Hcq|].
  rewrite get_message_within_connected by assumption.
  unfold message_queue_get_within. destruct timeout as [t|].
  - cbn [timeout_valid] in Hv. apply negb_true_iff in Hv. rewrite Hv.
    destruct turns as [|turns]; [exfalso; apply (Nat.lt_irrefl 0), Hn;
                                 discriminate|].
    rewrite run_until_step by exact H0.
    rewrite run_until_done by exact H1. exact Htake.
  - unfold bind, await. rewrite Hw. cbn [List.length].
    rewrite run_until_step by exact H0.
    rewrite run_until_done by exact H1. unfold modify. exact Htake.
Qed.


(** X1: [get_message] with a timeout on a connected client.  A negative
    timeout raises [ValueError] and takes nothing off the queue, whatever it
    holds.  Otherwise, for a timeout that the lock accepts, the call sleeps
    while the queue is empty: when the
    receive loop has queued nothing by the time the timeout expires the call
    returns [None], and the state is what the receive loop has made of it
    (unchanged if nothing was on the wire); when the next event on the wire
    is a message and the receive loop gets to it in time, the call returns
    that message and leaves on the queue what the loop has queued behind
    it. *)
Theorem get_message_timeout (st : State) (t : Q) (turns later : nat) :
  reachable st -> is_connected st = true ->
  (timeout_negative t = true ->
   get_message_within turns later (Some t) st
     = (Raise (ValueError "'timeout' must be a non-negative number"), st)) /\
  (timeout_negative t = false -> timeout_accepted t = true ->
   (has_message (reactor_steps turns st) = false ->
    get_message_within turns later (Some t) st
      = (Return None, reactor_steps turns st)) /\
   (message_queue st = [] -> wire_in st = [] ->
    get_message_within turns later (Some t) st = (Return None, st)) /\
   (forall message rest,
      message_queue st = [] -> wire_in st = Received message :: rest ->
      isinstance_AckClientDisconnect message = false -> 0 < turns ->
      exists consumed,
        rest = consumed ++ wire_in (reactor_steps later (reactor_step st)) /\
        message_queue (reactor_steps later (reactor_step st))
          = message :: enqueued consumed /\
        get_message_within turns later (Some t) st
          = (Return (Some message),
             set_message_queue (enqueued consumed)
               (reactor_steps later (reactor_step st))))).
Proof.
  intros R Hc. pose proof (reachable_lifecycle st R) as L.
  destruct (lifecycle_connected st L Hc) as (Hq & Ht & Hk & Hr).
  split.
  - intros Hneg. rewrite get_message_within_connected by assumption.
    unfold message_queue_get_within. now rewrite Hneg.
  - intros Hneg _.
    assert (Hexp : has_message (reactor_steps turns st) = false ->
                   get_message_within turns later (Some t) st
                     = (Return None, reactor_steps turns st)).
    { intros He. rewrite get_message_within_connected by assumption.
      unfold message_queue_get_within. rewrite Hneg.
      now rewrite (run_until_expires turns st He). }
    split; [exact Hexp|]. split.
    + intros Hm Hw.
      assert (F : reactor_steps turns st = st)
        by (apply reactor_steps_fixed; now apply reactor_step_idle).
      rewrite Hexp; rewrite F; [reflexivity|].
      unfold has_message. now rewrite Hm.
    + intros message rest Hm Hw Ha Hn.
      apply woken_by_arrival; try assumption.
      * cbn [timeout_valid]. now rewrite Hneg.
      * intros _. exact Hn.
Qed.

Lemma client_two_reachable : reachable client_two.
Proof.
  apply (reach_init "localhost" 9000 (serving [Received m1; Received m2])).
  vm_compute. reflexivity.
Defined.

Lemma client_idle_reachable : reachable client_idle.
Proof.
  apply (reach_init "localhost" 9000 (serving [])).
  vm_compute. reflexivity.
Defined.

Lemma get_message_timeout_witness :
  get_message_within 1 1 (Some (-1 # 2)%Q) client_two
    = (Raise (ValueError "'timeout' must be a non-negative number"),
       client_two) /\
  get_message_within 3 1 (Some 2%Q) client_idle = (Return None, client_idle) /\
  exists consumed,
    [Received m2]
      = consumed ++ wire_in (reactor_steps 1 (reactor_step client_two)) /\
    message_queue (reactor_steps 1 (reactor_step client_two))
      = m1 :: enqueued consumed /\
    get_message_within 1 1 (Some 2%Q) client_two
      = (Return (Some m1),
         set_message_queue (enqueued consumed)
           (reactor_steps 1 (reactor_step client_two))).
Proof.
  split; [|split].
  - apply (proj1 (get_message_timeout client_two (-1 # 2)%Q 1 1
                    client_two_reachable eq_refl)).
    vm_compute. reflexivity.
  - apply (proj1 (proj2 (proj2 (get_message_timeout client_idle 2%Q 3 1
                                  client_idle_reachable eq_refl)
                           eq_refl eq_refl)));
      vm_compute; reflexivity.
  - apply (proj2 (proj2 (proj2 (get_message_timeout client_two 2%Q 1 1
                                  client_two_reachable eq_refl)
                           eq_refl eq_refl)) m1 [Received m2]).
    + vm_compute. reflexivity.
    + vm_compute. reflexivity.
    + vm_compute. reflexivity.
    + lia.
Defined.



Lemma reachable_end_step (st : State) (ev : Event) (rest : list Event) :
  lifecycle st -> is_connected st = true ->
  wire_in st = ev :: rest -> ends_loop ev = true ->
  reactor_step st
    = set_receive_task Finished
        (set_stream None
           (set_close_calls 1
              (set_exception_queue (recorded ev) (set_wire_in rest st)))).
Proof.
  intros L Hc Hw He.
  destruct (lifecycle_connected st L Hc) as (Hq & Ht & Hk & Hr).
  destruct ev as [message|e].
  - cbn in He. destruct message; try discriminate.
    rewrite (reactor_step_ack st Hr Ht Hc rest Hw). rewrite Hk.
    cbn [recorded]. destruct st; cbn in *. now subst.
  - rewrite (reactor_step_failed st Hr Ht Hc e rest Hw). now rewrite Hq, Hk.
Qed.

(** X3: a [get_message] without a timeout that waits on an empty queue is not
    woken when the connection ends: on an acknowledgement or a failure the
    receive loop clears the stream and records the failure, the call stays
    blocked, and nothing that the reactor does later changes that. *)
Theorem get_message_not_woken_by_end
  (st : State) (ev : Event) (rest : list Event) :
  reachable st -> is_connected st = true -> message_queue st = [] ->
  wire_in st = ev :: rest -> ends_loop ev = true ->
  get_message None st = (Blocked, reactor_step st) /\
  is_connected (reactor_step st) = false /\
  exception_queue (reactor_step st) = recorded ev /\
  forall k,
    reactor_steps k (reactor_step st) = reactor_step st /\
    has_message (reactor_steps k (reactor_step st)) = false.
Proof.
  intros R Hc Hm Hw He. pose proof (reachable_lifecycle st R) as L.
  destruct (lifecycle_connected st L Hc) as (Hq & Ht & Hk & Hr).
  pose proof (reachable_end_step st ev rest L Hc Hw He) as E.
  assert (Hf : reactor_step (reactor_step st) = reactor_step st)
    by (apply reactor_step_stops; now rewrite E).
  assert (H1 : has_message (reactor_step st) = false)
    by (rewrite E; unfold has_message; cbn; now rewrite Hm).
  split; [|split; [|split]].
  - rewrite get_message_connected by assumption.
    unfold message_queue_get, bind, await.
    assert (H0 : has_message st = false)
      by (unfold has_message; now rewrite Hm).
    rewrite run_until_step by exact H0.
    now rewrite (run_until_stuck has_message _ _ H1 Hf).
  - now rewrite E.
  - now rewrite E.
  - intros k. now rewrite (reactor_steps_fixed k _ Hf).
Qed.

Lemma get_message_not_woken_by_end_witness :
  get_message None client_failing = (Blocked, reactor_step client_failing) /\
  is_connected (reactor_step client_failing) = false /\
  exception_queue (reactor_step client_failing)
    = recorded (Failed StreamClosedError) /\
  forall k,
    reactor_steps k (reactor_step client_failing)
      = reactor_step client_failing /\
    has_message (reactor_steps k (reactor_step client_failing)) = false.
Proof.
  apply (get_message_not_woken_by_end client_failing
           (Failed StreamClosedError) []).
  - exact client_failing_reachable.
  - vm_compute. reflexivity.
  - vm_compute. reflexivity.
  - vm_compute. reflexivity.
  - vm_compute. reflexivity.
Defined.

(** *** [disconnect] on a connected client *)

Lemma disconnect_notify_sent (st : State) :
  send_fault st = None ->
  disconnect_notify st
    = (Return tt,
       set_wire_out (wire_out st ++ [NotifyClientDisconnect])
         (set_log (log st ++ [Debug "Notifying server of disconnect..."])
            st)).
Proof.
  intros Hf.
  unfold disconnect_notify, bind, logger_debug, modify, stream_send_message.
  cbn [send_fault set_log wire_out]. now rewrite Hf.
Qed.

(** Sleeping until the stream is cleared, while messages arrive and then an
    event that ends the receive loop. *)
Lemma wait_until_end (ms : list Message) (ev : Event) (rest : list Event) :
  no_ack ms = true -> ends_loop ev = true ->
  forall n st,
    lifecycle st -> is_connected st = true ->
    wire_in st = map Received ms ++ ev :: rest ->
    List.length ms < n ->
    run_until (fun s => negb (is_connected s)) n st
      = (Return tt,
         set_receive_task Finished
           (set_stream None
              (set_close_calls 1
                 (set_exception_queue (recorded ev)
                    (set_message_queue (message_queue st ++ ms)
                       (set_wire_in rest st)))))).
Proof.
  intros Hms He. induction ms as [|message ms IH]; intros n st L Hc Hw Hn;
    (destruct n as [|n]; [cbn in Hn; lia|]);
    rewrite run_until_step by (now rewrite Hc).
  - cbn [map app] in Hw.
    rewrite (reachable_end_step st ev rest L Hc Hw He).
    rewrite run_until_done by reflexivity.
    rewrite app_nil_r. reflexivity.
  - apply no_ack_cons in Hms. destruct Hms as [Hm Hms].
    cbn [map app] in Hw.
    destruct (lifecycle_connected st L Hc) as (Hq & Ht & Hk & Hr).
    rewrite (reactor_step_message st Hr Ht Hc message _ Hw Hm).
    rewrite (IH Hms n).
    + cbn [message_queue set_message_queue set_wire_in].
      now rewrite <- app_assoc.
    + lifecycle_same.
    + exact Hc.
    + reflexivity.
    + cbn in Hn. lia.
Qed.

(** Sleeping while only messages arrive: the sleep never ends. *)
Lemma wait_without_end (ms : list Message) :
  no_ack ms = true ->
  forall n st,
    lifecycle st -> is_connected st = true ->
    wire_in st = map Received ms ->
    List.length ms <= n ->
    run_until (fun s => negb (is_connected s)) n st
      = (Blocked,
         set_message_queue (message_queue st ++ ms) (set_wire_in [] st)).
Proof.
  intros Hms. induction ms as [|message ms IH]; intros n st L Hc Hw Hn.
  - cbn [map] in Hw.
    destruct (lifecycle_connected st L Hc) as (Hq & Ht & Hk & Hr).
    rewrite run_until_stuck.
    + rewrite app_nil_r. f_equal. destruct st; cbn in *. now subst.
    + now rewrite Hc.
    + now apply reactor_step_idle.
  - destruct n as [|n]; [cbn in Hn; lia|].
    rewrite run_until_step by (now rewrite Hc).
    apply no_ack_cons in Hms. destruct Hms as [Hm Hms].
    cbn [map] in Hw.
    destruct (lifecycle_connected st L Hc) as (Hq & Ht & Hk & Hr).
    rewrite (reactor_step_message st Hr Ht Hc message _ Hw Hm).
    rewrite (IH Hms n).
    + cbn [message_queue set_message_queue set_wire_in].
      now rewrite <- app_assoc.
    + lifecycle_same.
    + exact Hc.
    + reflexivity.
    + cbn in Hn. lia.
Qed.

Lemma disconnect_ends
  (st : State) (ms : list Message) (ev : Event) (rest : list Event) :
  reachable st -> is_connected st = true -> send_fault st = None ->
  no_ack ms = true -> ends_loop ev = true ->
  wire_in st = map Received ms ++ ev :: rest ->
  exists st',
    disconnect st = (Return tt, st') /\
    stream st' = None /\
    wire_out st' = wire_out st ++ [NotifyClientDisconnect] /\
    close_calls st' = 1 /\
    ioloop_running st' = false /\
    receive_task st' = Finished /\
    message_queue st' = message_queue st ++ ms /\
    wire_in st' = rest /\
    exception_queue st' = recorded ev.
Proof.
  intros R Hc Hf Hms He Hw. pose proof (reachable_lifecycle st R) as L.
  rewrite disconnect_connected by assumption.
  unfold bind at 1. rewrite (disconnect_notify_sent st Hf).
  unfold disconnect_wait. unfold bind at 1. unfold await.
  rewrite (wait_until_end ms ev rest Hms He).
  - unfold bind, logger_debug, modify. eexists. split; [reflexivity|].
    cbn. repeat split; reflexivity.
  - lifecycle_same.
  - exact Hc.
  - exact Hw.
  - cbn [wire_in set_wire_out set_log]. rewrite Hw.
    rewrite length_app, length_map. cbn. lia.
Qed.

(** X4: a [disconnect] that the server acknowledges: the notification is the
    last message put on the wire, the messages that arrive before the
    acknowledgement are put on the queue, the stream is closed once and
    cleared, the IOLoop is stopped, no error is recorded, and the call
    returns. *)
Theorem disconnect_acknowledged
  (st : State) (ms : list Message) (rest : list Event) :
  reachable st -> is_connected st = true -> send_fault st = None ->
  no_ack ms = true ->
  wire_in st = map Received ms ++ Received AckClientDisconnect :: rest ->
  exists st',
    disconnect st = (Return tt, st') /\
    stream st' = None /\
    wire_out st' = wire_out st ++ [NotifyClientDisconnect] /\
    close_calls st' = 1 /\
    ioloop_running st' = false /\
    receive_task st' = Finished /\
    message_queue st' = message_queue st ++ ms /\
    wire_in st' = rest /\
    exception_queue st' = [].
Proof.
  intros R Hc Hf Hms Hw.
  exact (disconnect_ends st ms (Received AckClientDisconnect) rest
           R Hc Hf Hms eq_refl Hw).
Qed.

Lemma disconnect_acknowledged_witness :
  exists st',
    disconnect (client_of scenario_B) = (Return tt, st') /\
    stream st' = None /\
    wire_out st' = wire_out (client_of scenario_B) ++ [NotifyClientDisconnect] /\
    close_calls st' = 1 /\
    ioloop_running st' = false /\
    receive_task st' = Finished /\
    message_queue st' = message_queue (client_of scenario_B) ++ [m1; m2; m3] /\
    wire_in st' = [] /\
    exception_queue st' = [].
Proof.
  apply (disconnect_acknowledged (client_of scenario_B) [m1; m2; m3] []).
  - exact client_B_reachable.
  - vm_compute. reflexivity.
  - vm_compute. reflexivity.
  - vm_compute. reflexivity.
  - vm_compute. reflexivity.
Defined.

(** X5: a [disconnect] during which the stream fails returns as if it had been
    acknowledged; it does not read the exception queue, so the failure stays
    there and is raised by the next [send_message] or [get_message]. *)
Theorem disconnect_ended_by_failure
  (st : State) (ms : list Message) (e : Exn) (rest : list Event) :
  reachable st -> is_connected st = true -> send_fault st = None ->
  no_ack ms = true ->
  wire_in st = map Received ms ++ Failed e :: rest ->
  exists st',
    disconnect st = (Return tt, st') /\
    stream st' = None /\
    ioloop_running st' = false /\
    exception_queue st' = [e] /\
    surfaces_once e st'.
Proof.
  intros R Hc Hf Hms Hw.
  destruct (disconnect_ends st ms (Failed e) rest R Hc Hf Hms eq_refl Hw)
    as (st' & Hd & Hs & _ & _ & Hi & _ & _ & _ & Hq).
  exists st'. repeat split; try assumption.
  - intros message.
    assert (L : lifecycle st').
    { replace st' with (snd (disconnect st)) by now rewrite Hd.
      apply lifecycle_disconnect. now apply reachable_lifecycle. }
    destruct (pending_error_surfaces st' e [] L Hq) as (_ & _ & [H _]).
    apply H.
  - intros timeout.
    assert (L : lifecycle st').
    { replace st' with (snd (disconnect st)) by now rewrite Hd.
      apply lifecycle_disconnect. now apply reachable_lifecycle. }
    destruct (pending_error_surfaces st' e [] L Hq) as (_ & _ & [_ H]).
    apply H.
Qed.

Lemma disconnect_ended_by_failure_witness :
  exists st',
    disconnect client_failing = (Return tt, st') /\
    stream st' = None /\
    ioloop_running st' = false /\
    exception_queue st' = [StreamClosedError] /\
    surfaces_once StreamClosedError st'.
Proof.
  apply (disconnect_ended_by_failure client_failing [] StreamClosedError []).
  - exact client_failing_reachable.
  - vm_compute. reflexivity.
  - vm_compute. reflexivity.
  - vm_compute. reflexivity.
  - vm_compute. reflexivity.
Defined.

(** X6: a [disconnect] that the server never answers does not return: while
    only messages arrive it sleeps, the messages are put on the queue, the
    client stays connected with its IOLoop running, and once the wire is
    silent nothing changes any more. *)
Theorem disconnect_unanswered (st : State) (ms : list Message) :
  reachable st -> is_connected st = true -> send_fault st = None ->
  no_ack ms = true -> wire_in st = map Received ms ->
  exists st',
    disconnect st = (Blocked, st') /\
    is_connected st' = true /\
    ioloop_running st' = true /\
    wire_out st' = wire_out st ++ [NotifyClientDisconnect] /\
    message_queue st' = message_queue st ++ ms /\
    forall k, reactor_steps k st' = st'.
Proof.
  intros R Hc Hf Hms Hw. pose proof (reachable_lifecycle st R) as L.
  destruct (lifecycle_connected st L Hc) as (Hq & Ht & Hk & Hr).
  rewrite disconnect_connected by assumption.
  unfold bind at 1. rewrite (disconnect_notify_sent st Hf).
  unfold disconnect_wait. unfold bind at 1. unfold await.
  rewrite (wait_without_end ms Hms).
  - eexists. split; [reflexivity|].
    cbn. repeat split; try assumption.
    intros k. apply reactor_steps_fixed.
    apply reactor_step_idle; [exact Hr|exact Ht|exact Hc|reflexivity].
  - lifecycle_same.
  - exact Hc.
  - exact Hw.
  - cbn [wire_in set_wire_out set_log]. rewrite Hw, length_map. lia.
Qed.

Lemma disconnect_unanswered_witness :
  exists st',
    disconnect (client_of [Received m1; Received m2]) = (Blocked, st') /\
    is_connected st' = true /\
    ioloop_running st' = true /\
    wire_out st'
      = wire_out (client_of [Received m1; Received m2])
          ++ [NotifyClientDisconnect] /\
    message_queue st'
      = message_queue (client_of [Received m1; Received m2]) ++ [m1; m2] /\
    forall k, reactor_steps k st' = st'.
Proof.
  apply (disconnect_unanswered (client_of [Received m1; Received m2])
           [m1; m2]).
  - apply (reach_init "localhost" 9000 (serving [Received m1; Received m2])).
    vm_compute. reflexivity.
  - vm_compute. reflexivity.
  - vm_compute. reflexivity.
  - vm_compute. reflexivity.
  - vm_compute. reflexivity.
Defined.

(** X7: when the stream's send raises in [disconnect], the exception reaches
    the caller before any waiting: the client stays connected, nothing is
    put on the wire, the IOLoop keeps running and the receive loop stays
    scheduled. *)
Theorem disconnect_send_failure (st : State) (e : Exn) :
  is_connected st = true -> send_fault st = Some e ->
  exists st',
    disconnect st = (Raise e, st') /\
    stream st' = stream st /\
    wire_out st' = wire_out st /\
    wire_in st' = wire_in st /\
    ioloop_running st' = ioloop_running st /\
    receive_task st' = receive_task st /\
    exception_queue st' = exception_queue st.
Proof.
  intros Hc Hf. rewrite disconnect_connected by assumption.
  unfold bind at 1.
  unfold disconnect_notify, bind, logger_debug, modify, stream_send_message.
  cbn [send_fault set_log]. rewrite Hf.
  eexists. split; [reflexivity|]. cbn. repeat split.
Qed.

Lemma disconnect_send_failure_witness :
  exists st',
    disconnect client_send_fault = (Raise StreamClosedError, st') /\
    stream st' = stream client_send_fault /\
    wire_out st' = wire_out client_send_fault /\
    wire_in st' = wire_in client_send_fault /\
    ioloop_running st' = ioloop_running client_send_fault /\
    receive_task st' = receive_task client_send_fault /\
    exception_queue st' = exception_queue client_send_fault.
Proof.
  apply (disconnect_send_failure client_send_fault StreamClosedError);
    vm_compute; reflexivity.
Defined.

(** *** A client without a stream *)

Lemma frozen_same (st st' : State) :
  is_connected st = false ->
  stream st' = stream st -> message_queue st' = message_queue st ->
  wire_in st' = wire_in st -> wire_out st' = wire_out st ->
  close_calls st' = close_calls st ->
  ioloop_running st' = ioloop_running st ->
  frozen st st'.
Proof.
  intros Hc Hs Hm Hi Ho Hk Hr. apply is_connected_false in Hc.
  unfold frozen. rewrite Hs. repeat split; assumption.
Qed.

Lemma frozen_trans (st1 st2 st3 : State) :
  frozen st1 st2 -> frozen st2 st3 -> frozen st1 st3.
Proof.
  unfold frozen. intros (H1 & H2 & H3 & H4 & H5 & H6) (K1 & K2 & K3 & K4 & K5 & K6).
  repeat split; congruence.
Qed.

Lemma get_message_disconnected (timeout : option Q) (st : State) :
  is_connected st = false ->
  exists e,
    fst (get_message timeout st) = Raise e /\
    frozen st (snd (get_message timeout st)).
Proof.
  intros Hc. destruct (exception_queue st) as [|e rest] eqn:Hq.
  - exists NotConnected. rewrite get_message_not_connected by assumption.
    split; [reflexivity|]. now apply frozen_same.
  - exists e. rewrite (get_message_pending timeout st e rest Hq).
    split; [reflexivity|]. now apply frozen_same.
Qed.

Lemma perform_disconnected (a : Action) (st : State) :
  is_connected st = false -> frozen st (perform a st).
Proof.
  intros Hc. destruct a as [|message|timeout| | | |sf cf]; cbn [perform].
  - now apply frozen_same.
  - destruct (exception_queue st) as [|e rest] eqn:Hq.
    + rewrite send_message_not_connected by assumption.
      now apply frozen_same.
    + rewrite (send_message_pending message st e rest Hq).
      now apply frozen_same.
  - now destruct (get_message_disconnected timeout st Hc) as (e & _ & H).
  - rewrite disconnect_not_connected by assumption. now apply frozen_same.
  - unfold __del__, bind, logger_debug, modify, connected.
    change (is_connected (set_log _ st)) with (is_connected st).
    rewrite Hc. now apply frozen_same.
  - unfold reactor_step. destruct (ioloop_running st);
      [|now apply frozen_same].
    destruct (receive_task st); try now apply frozen_same.
    rewrite Hc. now apply frozen_same.
  - now apply frozen_same.
Qed.

(** X8: once the stream reference is cleared it stays cleared: whatever
    [connected], [send_message], [get_message], [disconnect], [__del__] and
    the reactor do afterwards, no [get_message] returns a message (also not
    one that is on the queue), nothing is put on the wire or taken off it,
    the stream is not closed again, and the IOLoop is neither stopped nor
    started. *)
Theorem disconnected_is_final (schedule : list Action) (st : State) :
  is_connected st = false ->
  fst (run schedule st) = [] /\ frozen st (snd (run schedule st)).
Proof.
  revert st. induction schedule as [|a schedule IH]; intros st Hc.
  - split; [reflexivity|]. now apply frozen_same.
  - assert (Hcase : (exists t, a = Call_get_message t) \/
                    (forall t, a <> Call_get_message t))
      by (destruct a as [|m|t| | | |sf cf];
          try (right; discriminate); left; now exists t).
    destruct Hcase as [[timeout ->]|Ha].
    + cbn [run].
      destruct (get_message_disconnected timeout st Hc) as (e & Ho & Hf).
      destruct (get_message timeout st) as [o s]. cbn [fst snd] in *.
      subst o.
      assert (Hs : is_connected s = false)
        by (apply is_connected_false; now destruct Hf).
      destruct (IH s Hs) as [Hd Hf'].
      split; [exact Hd|]. now apply frozen_trans with s.
    + assert (E : run (a :: schedule) st = run schedule (perform a st))
        by (destruct a as [|m|t| | | |sf cf]; try reflexivity;
            now destruct (Ha t)).
      rewrite E. pose proof (perform_disconnected a st Hc) as Hf.
      assert (Hs : is_connected (perform a st) = false)
        by (apply is_connected_false; now destruct Hf).
      destruct (IH _ Hs) as [Hd Hf'].
      split; [exact Hd|]. now apply frozen_trans with (perform a st).
Qed.

Lemma disconnected_is_final_witness :
  fst (run [Call_get_message None; Turn; Call_send_message m3;
            Call_disconnect; Call_get_message (Some 1%Q)] client_lost) = [] /\
  frozen client_lost
    (snd (run [Call_get_message None; Turn; Call_send_message m3;
               Call_disconnect; Call_get_message (Some 1%Q)] client_lost)).
Proof.
  apply (disconnected_is_final
           [Call_get_message None; Turn; Call_send_message m3;
            Call_disconnect; Call_get_message (Some 1%Q)] client_lost).
  vm_compute. reflexivity.
Defined.

(** *** [send_message] in sequence *)

(** X9: on a connected client with no error pending and a stream that sends,
    the messages of successive [send_message] calls go on the wire in the
    order of the calls, after what was sent before. *)
Theorem send_messages_in_order (ms : list Message) (st : State) :
  exception_queue st = [] -> is_connected st = true ->
  send_fault st = None ->
  send_messages ms st = (Return tt, set_wire_out (wire_out st ++ ms) st).
Proof.
  revert st. induction ms as [|message ms IH]; intros st Hq Hc Hf;
    cbn [send_messages].
  - rewrite app_nil_r. now destruct st.
  - rewrite send_message_connected by assumption.
    unfold stream_send_message. rewrite Hf.
    rewrite IH by assumption.
    cbn [wire_out set_wire_out]. now rewrite <- app_assoc.
Qed.

Lemma send_messages_in_order_witness :
  send_messages [m1; m2; m3] client_notified
    = (Return tt,
       set_wire_out (wire_out client_notified ++ [m1; m2; m3])
         client_notified).
Proof.
  apply (send_messages_in_order [m1; m2; m3] client_notified);
    vm_compute; reflexivity.
Defined.

(** *** [__del__] *)

(** X10: [__del__] on a client without a stream only logs that it was called (it
    does not warn as [disconnect] does); on a connected client it is a
    [disconnect]; and when it has returned the client has no stream. *)
Theorem del_disconnects (st : State) :
  (is_connected st = false ->
   __del__ st
     = (Return tt,
        set_log (log st ++ [Debug "Garbage collection called for TCPClient"])
          st)) /\
  (is_connected st = true ->
   __del__ st
     = disconnect
         (set_log (log st ++ [Debug "Garbage collection called for TCPClient"])
            st)) /\
  (forall st', __del__ st = (Return tt, st') -> is_connected st' = false).
Proof.
  assert (E : forall b, is_connected st = b ->
              __del__ st
                = (if b then disconnect else ret tt)
                    (set_log
                       (log st
                          ++ [Debug "Garbage collection called for TCPClient"])
                       st)).
  { intros b Hb. unfold __del__, bind, logger_debug, modify, connected.
    change (is_connected (set_log _ st)) with (is_connected st).
    now rewrite Hb. }
  split; [|split].
  - intros Hc. now rewrite (E false Hc).
  - intros Hc. now rewrite (E true Hc).
  - intros st' H. destruct (is_connected st) eqn:Hc.
    + rewrite (E true eq_refl) in H. now apply disconnect_returns in H.
    + rewrite (E false eq_refl) in H. inversion H; subst. exact Hc.
Qed.

Lemma del_disconnects_witness :
  __del__ client_lost
    = (Return tt,
       set_log
         (log client_lost ++ [Debug "Garbage collection called for TCPClient"])
         client_lost) /\
  is_connected (snd (__del__ client_acked)) = false.
Proof.
  split.
  - apply (proj1 (del_disconnects client_lost)). vm_compute. reflexivity.
  - apply (proj2 (proj2 (del_disconnects client_acked))
             (snd (__del__ client_acked))).
    vm_compute. reflexivity.
Defined.

(** *** What every constructed client keeps *)

(** X11: in every state that a client reaches after its constructor has
    returned, through calls of [connected], [send_message], [get_message],
    [disconnect] and [__del__], turns of the receive loop and changes in how
    the stream fails ([connect] is called by the constructor only, not
    again), the receive loop is scheduled exactly while there is a stream,
    and then the IOLoop runs, no error is pending and the stream was never
    closed; without a stream the receive loop has returned and the stream
    was closed exactly once; and there is never more than one error
    pending. *)
Theorem constructed_client_invariant (st : State) :
  reachable st ->
  (is_connected st = true <-> receive_task st = Scheduled) /\
  (is_connected st = false <-> receive_task st = Finished) /\
  (is_connected st = true ->
   ioloop_running st = true /\ exception_queue st = [] /\
   close_calls st = 0) /\
  (is_connected st = false -> close_calls st = 1) /\
  List.length (exception_queue st) <= 1.
Proof.
  intros R. pose proof (reachable_lifecycle st R) as L.
  destruct (is_connected st) eqn:Hc.
  - destruct (lifecycle_connected st L Hc) as (Hq & Ht & Hk & Hr).
    rewrite Ht, Hq. repeat split; try discriminate; auto.
  - destruct (lifecycle_not_connected st L Hc) as (Ht & Hk & Hl).
    rewrite Ht. repeat split; try discriminate; auto.
Qed.

Lemma constructed_client_invariant_witness :
  (is_connected (perform Turn client_failing) = true
   <-> receive_task (perform Turn client_failing) = Scheduled) /\
  (is_connected (perform Turn client_failing) = false
   <-> receive_task (perform Turn client_failing) = Finished) /\
  (is_connected (perform Turn client_failing) = true ->
   ioloop_running (perform Turn client_failing) = true /\
   exception_queue (perform Turn client_failing) = [] /\
   close_calls (perform Turn client_failing) = 0) /\
  (is_connected (perform Turn client_failing) = false ->
   close_calls (perform Turn client_failing) = 1) /\
  List.length (exception_queue (perform Turn client_failing)) <= 1.
Proof.
  apply (constructed_client_invariant (perform Turn client_failing)).
  apply (reach_step Turn client_failing).
  exact client_failing_reachable.
Defined.

(** * Properties of the graph provider *)

Import MongoDb.

(** ** Dictionaries *)

Lemma dict_get_set (k k' : string) (v : Value) (d : Dict) :
  dict_get k (dict_set k' v d)
    = if String.eqb k k' then Some v else dict_get k d.
Proof.
  induction d as [|[k0 v0] d IH]; cbn [dict_set dict_get].
  - reflexivity.
  - destruct (String.eqb k' k0) eqn:E1; cbn [dict_get].
    + apply String.eqb_eq in E1. subst k0.
      now destruct (String.eqb k k').
    + rewrite IH. destruct (String.eqb k k0) eqn:E2; [|reflexivity].
      apply String.eqb_eq in E2. subst k0.
      destruct (String.eqb k k') eqn:E3; [|reflexivity].
      apply String.eqb_eq in E3. subst k'.
      rewrite String.eqb_refl in E1. discriminate.
Qed.

Lemma dict_contains_In (k : string) (d : Dict) :
  dict_contains k d = true <-> In k (map fst d).
Proof.
  unfold dict_contains. induction d as [|[k0 v0] d IH]; cbn [dict_get map fst In].
  - split; [discriminate|tauto].
  - destruct (String.eqb k k0) eqn:E.
    + apply String.eqb_eq in E. subst. split; auto.
    + apply String.eqb_neq in E. rewrite IH. split; [auto|].
      intros [H|H]; [congruence|exact H].
Qed.

Lemma mem_In (k : string) (keys : list string) :
  mem k keys = true <-> In k keys.
Proof.
  unfold mem. rewrite existsb_exists. split.
  - intros (x & Hx & E). apply String.eqb_eq in E. now subst.
  - intros H. exists k. split; [exact H|apply String.eqb_refl].
Qed.

Lemma dict_del_None (k : string) (d : Dict) :
  dict_del k d = None <-> dict_contains k d = false.
Proof.
  unfold dict_contains. induction d as [|[k0 v0] d IH]; cbn [dict_del dict_get].
  - tauto.
  - destruct (String.eqb k k0); [split; discriminate|].
    destruct (dict_del k d); cbn [option_map].
    + split; [discriminate|]. intros H. apply IH in H. discriminate.
    + split; [|reflexivity]. intros _. now apply IH.
Qed.

(** Deleting a key of a dictionary (whose keys are distinct, as in Python)
    leaves the other entries, in their order. *)
Lemma dict_del_Some (k : string) (d d' : Dict) :
  NoDup (map fst d) -> dict_del k d = Some d' ->
  d' = filter (fun kv => negb (String.eqb (fst kv) k)) d /\
  In k (map fst d).
Proof.
  revert d'. induction d as [|[k0 v0] d IH]; intros d' Hn H;
    cbn [dict_del] in H; [discriminate|].
  cbn [map fst] in Hn. inversion Hn as [|? ? Hnot Hn']; subst.
  cbn [filter fst map In].
  destruct (String.eqb k k0) eqn:E.
  - apply String.eqb_eq in E. subst k0. inversion H; subst d'.
    rewrite String.eqb_refl. cbn [negb]. split; [|now left].
    symmetry. apply forallb_filter_id. apply forallb_forall.
    intros [k1 v1] Hin. cbn [fst]. apply negb_true_iff.
    apply String.eqb_neq. intros ->. apply Hnot.
    now apply (in_map fst) in Hin.
  - destruct (dict_del k d) as [d1|] eqn:Hd; [|discriminate].
    cbn [option_map] in H. inversion H; subst d'.
    destruct (IH d1 Hn' eq_refl) as [E1 Hin].
    rewrite String.eqb_sym, E. cbn [negb]. split; [now rewrite E1|now right].
Qed.

Lemma filter_filter {A : Type} (f g : A -> bool) (l : list A) :
  filter f (filter g l) = filter (fun a => g a && f a) l.
Proof.
  induction l as [|a l IH]; cbn [filter]; [reflexivity|].
  destruct (g a); cbn [filter andb]; [|exact IH].
  destruct (f a); now rewrite IH.
Qed.

(** Dropping entries of a dictionary keeps its keys distinct. *)
Lemma filter_keys_distinct (keep : string * Value -> bool) (d : Dict) :
  NoDup (map fst d) -> NoDup (map fst (filter keep d)).
Proof.
  induction d as [|[k v] d IH]; cbn [map filter fst]; intros H; [exact H|].
  inversion H as [|? ? Hnot Hn]; subst.
  destruct (keep (k, v)); cbn [map fst]; [|now apply IH].
  constructor; [|now apply IH].
  intros Hin. apply Hnot. apply in_map_iff in Hin.
  destruct Hin as (x & Hx & Hf). apply filter_In in Hf.
  apply in_map_iff. exists x. tauto.
Qed.

(** X12: [__remove_keys] returns without an error exactly when the keys are
    distinct and all in the dictionary; it then leaves the entries with
    other keys, in their order. *)
Theorem remove_keys_spec (dictionary : Dict) (keys : list string) :
  NoDup (map fst dictionary) ->
  (snd (__remove_keys dictionary keys) = None <->
   NoDup keys /\ forall k, In k keys -> dict_contains k dictionary = true) /\
  (snd (__remove_keys dictionary keys) = None ->
   fst (__remove_keys dictionary keys)
     = filter (fun kv => negb (mem (fst kv) keys)) dictionary).
Proof.
  revert dictionary.
  induction keys as [|key keys IH]; intros d Hn; cbn [__remove_keys].
  - cbn [snd fst]. split.
    + split; [intros _; split; [constructor|intros k []]|reflexivity].
    + intros _. symmetry. apply forallb_filter_id. now apply forallb_forall.
  - destruct (dict_del key d) as [d'|] eqn:Hd.
    + destruct (dict_del_Some key d d' Hn Hd) as [E Hin].
      assert (Hn' : NoDup (map fst d'))
        by (rewrite E; now apply filter_keys_distinct).
      destruct (IH d' Hn') as [Hiff Hres].
      assert (Hc : forall k, dict_contains k d' = true <->
                             dict_contains k d = true /\ k <> key).
      { intros k. rewrite !dict_contains_In, E, !in_map_iff. split.
        - intros ([k1 v1] & Hk & Hf). apply filter_In in Hf.
          destruct Hf as [Hf Hp]. cbn [fst] in *. subst k1.
          apply negb_true_iff, String.eqb_neq in Hp.
          split; [now exists (k, v1)|exact Hp].
        - intros [([k1 v1] & Hk & Hf) Hne]. cbn [fst] in *. subst k1.
          exists (k, v1). split; [reflexivity|]. apply filter_In.
          split; [exact Hf|]. cbn [fst].
          now apply negb_true_iff, String.eqb_neq. }
      split.
      * rewrite Hiff. split.
        -- intros [Hk Hall]. split.
           ++ constructor; [|exact Hk]. intros Hi.
              apply Hall, Hc in Hi. now destruct Hi.
           ++ intros k [<-|Hi]; [now apply dict_contains_In|].
              now apply Hall, Hc in Hi.
        -- intros [Hk Hall]. inversion Hk as [|? ? Hnot Hk']; subst.
           split; [exact Hk'|]. intros k Hi. apply Hc.
           split; [apply Hall; now right|]. intros ->. contradiction.
      * intros Hs. rewrite (Hres Hs), E, filter_filter.
        apply filter_ext. intros [k v]. cbn [fst mem existsb].
        rewrite (String.eqb_sym k key).
        destruct (String.eqb key k); reflexivity.
    + cbn [snd fst]. split; [|discriminate].
      split; [discriminate|]. intros [_ Hall].
      apply dict_del_None in Hd.
      rewrite Hall in Hd by now left. discriminate.
Qed.

Lemma remove_keys_spec_witness :
  fst (__remove_keys
         [("u", VInt 1); ("score", VInt 7); ("v", VInt 2)] ["u"; "v"])
    = filter (fun kv => negb (mem (fst kv) ["u"; "v"]))
        [("u", VInt 1); ("score", VInt 7); ("v", VInt 2)].
Proof.
  apply (proj2 (remove_keys_spec
                  [("u", VInt 1); ("score", VInt 7); ("v", VInt 2)]
                  ["u"; "v"]
                  ltac:(repeat constructor; cbn; intuition discriminate))).
  vm_compute. reflexivity.
Defined.

(** ** Documents *)

Lemma document_fold (attributes : option (list string)) (base data : Dict) :
  document attributes base data
    = fold_left
        (fun doc kv =>
           if MongoDb_copies attributes (fst kv)
           then dict_set (fst kv) (snd kv) doc else doc)
        data base.
Proof.
  unfold document, dict_update.
  destruct attributes as [[|a l]|]; cbn [no_attributes MongoDb_copies];
    reflexivity.
Qed.

Lemma dict_get_fold (attributes : option (list string)) (k : string)
  (data base : Dict) :
  NoDup (map fst data) ->
  dict_get k
    (fold_left
       (fun doc kv =>
          if MongoDb_copies attributes (fst kv)
          then dict_set (fst kv) (snd kv) doc else doc)
       data base)
    = if dict_contains k data && MongoDb_copies attributes k
      then dict_get k data else dict_get k base.
Proof.
  revert base. induction data as [|[k1 v1] data IH]; intros base Hn.
  - reflexivity.
  - cbn [map fst] in Hn. inversion Hn as [|? ? Hnot Hn']; subst.
    cbn [fold_left fst snd]. rewrite (IH _ Hn').
    unfold dict_contains. cbn [dict_get].
    destruct (String.eqb k k1) eqn:E.
    + apply String.eqb_eq in E. subst k1.
      assert (Hk : dict_get k data = None).
      { destruct (dict_get k data) eqn:Hg; [|reflexivity].
        exfalso. apply Hnot. apply dict_contains_In.
        unfold dict_contains. now rewrite Hg. }
      rewrite Hk. cbn [andb].
      destruct (MongoDb_copies attributes k); [|reflexivity].
      now rewrite dict_get_set, String.eqb_refl.
    + destruct (match dict_get k data with Some _ => true | None => false end
                && MongoDb_copies attributes k); [reflexivity|].
      destruct (MongoDb_copies attributes k1); [|reflexivity].
      now rewrite dict_get_set, E.
Qed.

(** X13: the document written for a node or an edge holds, under each key, the
    value of the data when the data has the key and the key is asked for
    (every key is when [attributes] is [None] or empty), and otherwise the
    identifying value of the key ([id], or [u] and [v]).  So an [id], [u] or
    [v] entry of the data replaces the identifier when it is copied, and an
    empty list of attributes copies everything. *)
Theorem document_entries
  (attributes : option (list string)) (base data : Dict) (k : string) :
  NoDup (map fst data) ->
  dict_get k (document attributes base data)
    = if dict_contains k data && MongoDb_copies attributes k
      then dict_get k data else dict_get k base.
Proof.
  intros Hn. rewrite document_fold. now apply dict_get_fold.
Qed.

Lemma document_entries_witness :
  dict_get "id"
    (document (Some []) [("id", VInt 1)] [("score", VInt 7); ("id", VInt 9)])
    = if dict_contains "id" [("score", VInt 7); ("id", VInt 9)]
         && MongoDb_copies (Some []) "id"
      then dict_get "id" [("score", VInt 7); ("id", VInt 9)]
      else dict_get "id" [("id", VInt 1)].
Proof.
  apply (document_entries (Some []) [("id", VInt 1)]
           [("score", VInt 7); ("id", VInt 9)] "id").
  repeat constructor; cbn; intuition discriminate.
Defined.

(** ** [write_nodes] and [write_edges] *)



Lemma edge_documents_inside (self : MongoDbSubGraph) (r : Roi)
  (attributes : option (list string)) (edges : list (Z * Z * Dict)) :
  (forall u v data, In (u, v, data) edges ->
     node_data (Z.min u v) (graph_nodes self) <> None) ->
  edge_documents self r attributes edges
    = Ok (map (fun edge =>
                 document attributes
                   [("u", VInt (Z.min (fst (fst edge)) (snd (fst edge))));
                    ("v", VInt (Z.max (fst (fst edge)) (snd (fst edge))))]
                   (snd edge))
            (filter (MongoDb_edge_inside self r) edges)).
Proof.
  induction edges as [|[[u v] data] edges IH]; intros H; [reflexivity|].
  cbn [edge_documents filter]. unfold __contains, MongoDb_edge_inside at 1.
  cbn [fst snd].
  rewrite IH by (intros u' v' d' Hin; apply (H u' v' d'); now right).
  pose proof (H u v data (or_introl eq_refl)) as Hu.
  destruct (node_data (Z.min u v) (graph_nodes self)) as [d|];
    [|contradiction].
  unfold MongoDb_inside.
  destruct (dict_get "position" d) as [position|]; [|reflexivity].
  destruct (contains r position); reflexivity.
Qed.



Lemma write_edges_result (self : MongoDbSubGraph) (roi_ : option Roi)
  (attributes : option (list string))
  (fail_if_exists fail_if_not_exists : bool)
  (db : DbCall -> option PyError) :
  (forall u v data, In (u, v, data) (graph_edges self) ->
     node_data (Z.min u v) (graph_nodes self) <> None) ->
  fail_if_exists && fail_if_not_exists = false ->
  mode self <> "r" ->
  write_edges self roi_ attributes fail_if_exists fail_if_not_exists false db
    = match MongoDb_edges_inside self (MongoDb_region self roi_) attributes
      with
      | [] =>
          mkWritten (Ok tt) []
            [LogDebug "Writing edges in %s";
             LogDebug "No edges to insert in %s"]
      | docs => MongoDb_edge_write fail_if_exists db docs
      end.
Proof.
  intros Hn Hf Hm. unfold write_edges. rewrite Hf.
  apply String.eqb_neq in Hm. rewrite Hm.
  fold (MongoDb_region self roi_).
  rewrite edge_documents_inside by exact Hn.
  fold (MongoDb_edges_inside self (MongoDb_region self roi_) attributes).
  destruct (MongoDb_edges_inside self (MongoDb_region self roi_) attributes)
    as [|doc docs]; [reflexivity|].
  unfold MongoDb_edge_write.
  destruct fail_if_exists; [reflexivity|].
  destruct fail_if_not_exists; reflexivity.
Qed.

Lemma calls_attempt (db : DbCall -> option PyError) (call : DbCall)
  (log_before : list LogEntry) :
  calls (attempt db call log_before) = [call].
Proof.
  unfold attempt. destruct (db call) as [[]|]; reflexivity.
Qed.



(** X16: every edge document that [write_edges] hands to the database (which
    it does with [fail_if_exists] only) has its ends in order, [u <= v],
    whichever way round the graph holds the edge, as long as the data of
    the edge has no entries [u] and [v] of its own. *)
Theorem write_edges_ends_ordered (self : MongoDbSubGraph)
  (roi_ : option Roi) (attributes : option (list string))
  (fail_if_exists fail_if_not_exists : bool)
  (db : DbCall -> option PyError) :
  (forall u v data, In (u, v, data) (graph_edges self) ->
     node_data (Z.min u v) (graph_nodes self) <> None /\
     NoDup (map fst data) /\
     dict_contains "u" data = false /\ dict_contains "v" data = false) ->
  fail_if_exists && fail_if_not_exists = false ->
  mode self <> "r" ->
  forall call doc,
    In call
      (calls (write_edges self roi_ attributes fail_if_exists
                fail_if_not_exists false db)) ->
    In doc (MongoDb_call_documents call) ->
    call = insert_many edges_collection
             (MongoDb_edges_inside self (MongoDb_region self roi_)
                attributes) /\
    exists a b,
      dict_get "u" doc = Some (VInt a) /\
      dict_get "v" doc = Some (VInt b) /\
      (a <= b)%Z.
Proof.
  intros H Hf Hm call doc Hc Hd.
  rewrite write_edges_result in Hc;
    [|intros u v data Hin; now destruct (H u v data Hin)|exact Hf|exact Hm].
  destruct (MongoDb_edges_inside self (MongoDb_region self roi_) attributes)
    as [|d0 docs] eqn:E; [destruct Hc|].
  unfold MongoDb_edge_write in Hc.
  destruct fail_if_exists; [|destruct Hc].
  rewrite calls_attempt in Hc. destruct Hc as [<-|[]].
  split; [reflexivity|].
  cbn [MongoDb_call_documents] in Hd. rewrite <- E in Hd.
  unfold MongoDb_edges_inside in Hd. apply in_map_iff in Hd.
  destruct Hd as ([[u v] data] & <- & Hin). apply filter_In in Hin.
  destruct Hin as [Hin _]. cbn [fst snd].
  destruct (H u v data Hin) as (_ & Hn & Hu & Hv).
  exists (Z.min u v), (Z.max u v).
  rewrite !document_fold, !dict_get_fold by exact Hn. rewrite Hu, Hv.
  cbn. repeat split. lia.
Qed.

Lemma write_edges_ends_ordered_witness :
  insert_many edges_collection
    [[("u", VInt 1); ("v", VInt 2); ("weight", VInt 5)]]
    = insert_many edges_collection
        (MongoDb_edges_inside MongoDb_example
           (MongoDb_region MongoDb_example None) None) /\
  exists a b,
    dict_get "u" [("u", VInt 1); ("v", VInt 2); ("weight", VInt 5)]
      = Some (VInt a) /\
    dict_get "v" [("u", VInt 1); ("v", VInt 2); ("weight", VInt 5)]
      = Some (VInt b) /\
    (a <= b)%Z.
Proof.
  apply (write_edges_ends_ordered MongoDb_example None None true false
           MongoDb_accepting
           ltac:(intros u v data [E|[E|[]]]; inversion E; subst;
                 repeat split; try discriminate; repeat constructor;
                 cbn; intuition discriminate)
           eq_refl
           ltac:(discriminate)
           (insert_many edges_collection
              [[("u", VInt 1); ("v", VInt 2); ("weight", VInt 5)]])).
  - vm_compute. left. reflexivity.
  - vm_compute. left. reflexivity.
Defined.

(** X17: in mode [r] neither write method makes a database call or logs
    anything, whatever its arguments and whatever is in the graph: both
    raise before they look at the graph, an [AssertionError] for [delete]
    and for both fail flags at once, and otherwise the [RuntimeError] of a
    read-only database. *)
Theorem read_only_never_writes (self : MongoDbSubGraph)
  (roi_ : option Roi) (attributes : option (list string))
  (fail_if_exists fail_if_not_exists delete : bool)
  (db : DbCall -> option PyError) :
  mode self = "r" ->
  calls (write_nodes self roi_ attributes fail_if_exists fail_if_not_exists
           delete db) = [] /\
  calls (write_edges self roi_ attributes fail_if_exists fail_if_not_exists
           delete db) = [] /\
  logged (write_nodes self roi_ attributes fail_if_exists fail_if_not_exists
            delete db) = [] /\
  logged (write_edges self roi_ attributes fail_if_exists fail_if_not_exists
            delete db) = [] /\
  result (write_nodes self roi_ attributes fail_if_exists fail_if_not_exists
            delete db)
    = result (write_edges self roi_ attributes fail_if_exists
                fail_if_not_exists delete db) /\
  result (write_nodes self roi_ attributes fail_if_exists fail_if_not_exists
            delete db)
    = if delete then Err (AssertionError "Delete not implemented")
      else if fail_if_exists && fail_if_not_exists then
        Err (AssertionError
               "Cannot have fail_if_exists and fail_if_not_exists at the same time")
      else Err (RuntimeError "Trying to write to read-only DB").
Proof.
  intros Hm. unfold write_nodes, write_edges. rewrite Hm.
  destruct delete; [cbn; repeat split|].
  destruct (fail_if_exists && fail_if_not_exists); cbn; repeat split.
Qed.

Lemma read_only_never_writes_witness :
  calls (write_nodes MongoDb_read_only None None false false false
           MongoDb_accepting) = [] /\
  calls (write_edges MongoDb_read_only None None true false false
           MongoDb_accepting) = [] /\
  result (write_edges MongoDb_read_only None None true true false
            MongoDb_accepting)
    = Err (AssertionError
             "Cannot have fail_if_exists and fail_if_not_exists at the same time") /\
  result (write_nodes MongoDb_read_only None None false false true
            MongoDb_accepting)
    = Err (AssertionError "Delete not implemented") /\
  result (write_edges MongoDb_read_only None None true false false
            MongoDb_accepting)
    = Err (RuntimeError "Trying to write to read-only DB").
Proof.
  split; [|split; [|split; [|split]]].
  - apply (proj1 (read_only_never_writes MongoDb_read_only None None
                    false false false MongoDb_accepting eq_refl)).
  - apply (proj1 (proj2 (read_only_never_writes MongoDb_read_only None None
                           true false false MongoDb_accepting eq_refl))).
  - rewrite <- (proj1 (proj2 (proj2 (proj2 (proj2
                  (read_only_never_writes MongoDb_read_only None None
                     true true false MongoDb_accepting eq_refl)))))).
    apply (proj2 (proj2 (proj2 (proj2 (proj2
             (read_only_never_writes MongoDb_read_only None None
                true true false MongoDb_accepting eq_refl)))))).
  - apply (proj2 (proj2 (proj2 (proj2 (proj2
             (read_only_never_writes MongoDb_read_only None None
                false false true MongoDb_accepting eq_refl)))))).
  - rewrite <- (proj1 (proj2 (proj2 (proj2 (proj2
                  (read_only_never_writes MongoDb_read_only None None
                     true false false MongoDb_accepting eq_refl)))))).
    apply (proj2 (proj2 (proj2 (proj2 (proj2
             (read_only_never_writes MongoDb_read_only None None
                true false false MongoDb_accepting eq_refl)))))).
Defined.

(** ** The position query *)

Lemma dict_set_new (k : string) (v : Value) (d : Dict) :
  ~ In k (map fst d) -> dict_set k v d = d ++ [(k, v)].
Proof.
  induction d as [|[k0 v0] d IH]; intros H; [reflexivity|].
  cbn [dict_set app]. cbn [map fst In] in H.
  destruct (String.eqb k k0) eqn:E.
  - apply String.eqb_eq in E. subst. tauto.
  - rewrite IH by tauto. reflexivity.
Qed.

Lemma dict_update_new (d items : Dict) :
  NoDup (map fst (d ++ items)) -> dict_update d items = d ++ items.
Proof.
  unfold dict_update. revert d.
  induction items as [|[k v] items IH]; intros d H; cbn [fold_left fst snd].
  - now rewrite app_nil_r.
  - assert (Hk : ~ In k (map fst d)).
    { rewrite map_app in H. cbn [map fst] in H.
      apply NoDup_remove_2 in H. intros Hin. apply H.
      apply in_or_app. now left. }
    rewrite dict_set_new by exact Hk.
    rewrite IH; rewrite <- app_assoc; [reflexivity|exact H].
Qed.

Lemma position_key_inj (d d' : nat) :
  position_key d = position_key d' -> d = d'.
Proof.
  unfold position_key. cbn [String.append]. intros H.
  inversion H as [H'].
  apply Unsigned.to_uint_inj.
  assert (E : NilEmpty.uint_of_string
                (NilEmpty.string_of_uint (Nat.to_uint d))
              = NilEmpty.uint_of_string
                  (NilEmpty.string_of_uint (Nat.to_uint d')))
    by now rewrite H'.
  rewrite !NilEmpty.usu in E. now inversion E.
Qed.

Lemma NoDup_map_injective {A B : Type} (f : A -> B) (l : list A) :
  (forall x y, f x = f y -> x = y) -> NoDup l -> NoDup (map f l).
Proof.
  intros Hf Hn. induction Hn as [|a l Ha Hn IH]; cbn [map]; constructor.
  - intros Hin. apply in_map_iff in Hin. destruct Hin as (x & E & Hx).
    apply Hf in E. now subst.
  - exact IH.
Qed.

Lemma enumerate_from_keys {A : Type} (d : nat) (l : list A) :
  map fst (enumerate_from d l) = seq d (List.length l).
Proof.
  revert d. induction l as [|a l IH]; intros d; cbn; [reflexivity|].
  now rewrite IH.
Qed.

(** X18: for a single position attribute the query has one range per dimension
    that both [begin] and [end] have: dimension [d] constrains
    ['position.d'] to [begin[d] <= . < end[d]]; the keys are distinct, so no
    range replaces another, and they come in the order of the dimensions.
    For a list of distinct attribute names the same holds with the names as
    keys. *)
Theorem pos_query_ranges (roi : Roi) :
  (forall name,
     __pos_query (Single name) roi
       = map (fun dbe =>
                (position_key (fst dbe),
                 VDict [("$gte", VInt (fst (snd dbe)));
                        ("$lt", VInt (snd (snd dbe)))]))
           (enumerate_from 0 (combine (get_begin roi) (get_end roi)))) /\
  (forall names,
     NoDup names ->
     __pos_query (Several names) roi
       = map (fun kbe =>
                (fst kbe,
                 VDict [("$gte", VInt (fst (snd kbe)));
                        ("$lt", VInt (snd (snd kbe)))]))
           (combine names (combine (get_begin roi) (get_end roi)))).
Proof.
  split.
  - intros name. unfold __pos_query, dict_of.
    rewrite dict_update_new; [reflexivity|].
    cbn [app]. rewrite map_map. cbn [fst].
    rewrite <- (map_map fst position_key), enumerate_from_keys.
    apply NoDup_map_injective; [|apply seq_NoDup].
    intros x y. apply position_key_inj.
  - intros names Hn. unfold __pos_query, dict_of.
    rewrite dict_update_new; [reflexivity|].
    cbn [app]. rewrite map_map. cbn [fst].
    generalize (combine (get_begin roi) (get_end roi)). intros l.
    revert l. induction Hn as [|k names Hk Hn IH]; intros l;
      [constructor|].
    destruct l as [|be l]; cbn [combine map fst]; constructor.
    + intros Hin. apply Hk. apply in_map_iff in Hin.
      destruct Hin as ([k' be'] & <- & Hin). cbn [fst].
      now apply in_combine_l in Hin.
    + apply IH.
Qed.

Lemma pos_query_ranges_witness :
  __pos_query (Several ["z"; "y"; "x"]) (MongoDb_box [0; 0; 0]%Z [4; 5; 6]%Z)
    = map (fun kbe =>
             (fst kbe,
              VDict [("$gte", VInt (fst (snd kbe)));
                     ("$lt", VInt (snd (snd kbe)))]))
        (combine ["z"; "y"; "x"]
           (combine (get_begin (MongoDb_box [0; 0; 0]%Z [4; 5; 6]%Z))
              (get_end (MongoDb_box [0; 0; 0]%Z [4; 5; 6]%Z)))).
Proof.
  apply (proj2 (pos_query_ranges (MongoDb_box [0; 0; 0]%Z [4; 5; 6]%Z))
           ["z"; "y"; "x"]).
  repeat constructor; cbn; intuition discriminate.
Defined.

(** ** The reading methods *)

Lemma opened_fails (m : Mongo) (self : Provider) (e : PyError) :
  mongo_client m (host self) = Some e ->
  opened m self = (Err e, record (NewMongoClient (host self)) self).
Proof.
  intros H. unfold opened, pbind, __connect. now rewrite H.
Qed.

Lemma opened_succeeds (m : Mongo) (self : Provider) :
  mongo_client m (host self) = None ->
  opened m self
    = (Ok tt,
       set_handles (Some (host self)) (Some (db_name self))
         (Some (nodes_collection_name self))
         (Some (edges_collection_name self))
         (record (NewMongoClient (host self)) self)).
Proof.
  intros H. unfold opened, pbind, __connect. rewrite H. reflexivity.
Qed.

(** X19: when the client cannot be created, the reading methods do not raise the
    error of the connection: their [finally] calls [close] on the client
    that is still [None], and the [AttributeError] of that call is what the
    caller gets. *)
Theorem connect_failure_is_masked (m : Mongo) (roi : Roi) (self : Provider)
  (e : PyError) :
  client self = None -> mongo_client m (host self) = Some e ->
  fst (read_nodes m roi self) = Err MongoDb_no_close /\
  fst (num_nodes m roi self) = Err MongoDb_no_close /\
  fst (has_edges m roi self) = Err MongoDb_no_close /\
  fst (read_edges m roi self) = Err MongoDb_no_close.
Proof.
  intros Hc He.
  assert (R : fst (read_nodes m roi self) = Err MongoDb_no_close).
  { unfold read_nodes, pbind, debug, try_finally.
    rewrite opened_fails with (e := e) by exact He.
    unfold __disconnect. cbn [client record]. now rewrite Hc. }
  repeat split.
  - exact R.
  - unfold num_nodes, pbind, try_finally.
    rewrite opened_fails with (e := e) by exact He.
    unfold __disconnect. cbn [client record]. now rewrite Hc.
  - unfold has_edges. unfold pbind at 1. unfold try_finally.
    unfold pbind at 1.
    rewrite opened_fails with (e := e) by exact He.
    unfold __disconnect. cbn [client record]. now rewrite Hc.
  - unfold read_edges. unfold pbind at 1.
    destruct (read_nodes m roi self) as [[c|e'] s]; cbn [fst] in R;
      [discriminate|].
    cbn [fst]. now inversion R.
Qed.

Lemma connect_failure_is_masked_witness :
  fst (read_nodes MongoDb_unreachable (MongoDb_box [0]%Z [1]%Z)
         MongoDb_provider) = Err MongoDb_no_close /\
  fst (num_nodes MongoDb_unreachable (MongoDb_box [0]%Z [1]%Z)
         MongoDb_provider) = Err MongoDb_no_close /\
  fst (has_edges MongoDb_unreachable (MongoDb_box [0]%Z [1]%Z)
         MongoDb_provider) = Err MongoDb_no_close /\
  fst (read_edges MongoDb_unreachable (MongoDb_box [0]%Z [1]%Z)
         MongoDb_provider) = Err MongoDb_no_close.
Proof.
  apply (connect_failure_is_masked MongoDb_unreachable
           (MongoDb_box [0]%Z [1]%Z) MongoDb_provider
           (OtherError "ConfigurationError")); reflexivity.
Defined.

(** X20: with a client, [read_nodes] and [num_nodes] ask one query of the nodes
    collection, the position query of the region, and return what it
    answers or raise what it raises; either way they close the client once
    and leave the provider without client and handles. *)
Theorem read_nodes_closes (m : Mongo) (roi : Roi) (self : Provider) :
  mongo_client m (host self) = None ->
  (fst (read_nodes m roi self)
     = mongo_find m (nodes_collection_name self)
         (__pos_query (position_attribute self) roi) /\
   MongoDb_idle (snd (read_nodes m roi self)) /\
   trace (snd (read_nodes m roi self))
     = trace self
         ++ [Log (LogDebug "Querying nodes in %s");
             NewMongoClient (host self);
             Find (nodes_collection_name self)
               (__pos_query (position_attribute self) roi);
             ClientClose]) /\
  (fst (num_nodes m roi self)
     = mongo_count m (nodes_collection_name self)
         (__pos_query (position_attribute self) roi) /\
   MongoDb_idle (snd (num_nodes m roi self)) /\
   trace (snd (num_nodes m roi self))
     = trace self
         ++ [NewMongoClient (host self);
             Count (nodes_collection_name self)
               (__pos_query (position_attribute self) roi);
             ClientClose]).
Proof.
  intros Hm. split.
  - assert (E : read_nodes m roi self
                = (mongo_find m (nodes_collection_name self)
                     (__pos_query (position_attribute self) roi),
                   MongoDb_after
                     [Log (LogDebug "Querying nodes in %s");
                      NewMongoClient (host self);
                      Find (nodes_collection_name self)
                        (__pos_query (position_attribute self) roi);
                      ClientClose]
                     (set_handles None None None None self))).
    { unfold read_nodes, pbind, debug, try_finally.
      rewrite opened_succeeds by exact Hm.
      unfold on_collection, __disconnect. cbn.
      unfold MongoDb_after, record, set_handles. cbn.
      now rewrite <- ?app_assoc. }
    rewrite E. unfold MongoDb_idle. cbn. repeat split.
  - assert (E : num_nodes m roi self
                = (mongo_count m (nodes_collection_name self)
                     (__pos_query (position_attribute self) roi),
                   MongoDb_after
                     [NewMongoClient (host self);
                      Count (nodes_collection_name self)
                        (__pos_query (position_attribute self) roi);
                      ClientClose]
                     (set_handles None None None None self))).
    { unfold num_nodes, pbind, try_finally.
      rewrite opened_succeeds by exact Hm.
      unfold on_collection, __disconnect. cbn.
      unfold MongoDb_after, record, set_handles. cbn.
      now rewrite <- ?app_assoc. }
    rewrite E. unfold MongoDb_idle. cbn. repeat split.
Qed.

Lemma read_nodes_closes_witness :
  fst (num_nodes MongoDb_server (MongoDb_box [0]%Z [1]%Z) MongoDb_provider)
    = mongo_count MongoDb_server (nodes_collection_name MongoDb_provider)
        (__pos_query (position_attribute MongoDb_provider)
           (MongoDb_box [0]%Z [1]%Z)) /\
  MongoDb_idle
    (snd (num_nodes MongoDb_server (MongoDb_box [0]%Z [1]%Z)
            MongoDb_provider)) /\
  trace (snd (num_nodes MongoDb_server (MongoDb_box [0]%Z [1]%Z)
                MongoDb_provider))
    = trace MongoDb_provider
        ++ [NewMongoClient (host MongoDb_provider);
            Count (nodes_collection_name MongoDb_provider)
              (__pos_query (position_attribute MongoDb_provider)
                 (MongoDb_box [0]%Z [1]%Z));
            ClientClose].
Proof.
  apply (proj2 (read_nodes_closes MongoDb_server (MongoDb_box [0]%Z [1]%Z)
                  MongoDb_provider eq_refl)).
Defined.

(** X21: [has_edges] asks for one node of the region and for the edges that
    leave that node: with no node it answers false without a query on the
    edges; with a node it answers whether the count of the edges with that
    node as [u] is positive, a count that it takes from the cursor after it
    has closed the client. *)
Theorem has_edges_of_first_node (m : Mongo) (roi : Roi) (self : Provider) :
  mongo_client m (host self) = None ->
  (mongo_find_one m (nodes_collection_name self)
     (__pos_query (position_attribute self) roi) = Ok None ->
   fst (has_edges m roi self) = Ok false /\
   MongoDb_idle (snd (has_edges m roi self)) /\
   trace (snd (has_edges m roi self))
     = trace self
         ++ [NewMongoClient (host self);
             FindOne (nodes_collection_name self)
               (__pos_query (position_attribute self) roi);
             ClientClose]) /\
  (forall node i cursor n,
     mongo_find_one m (nodes_collection_name self)
       (__pos_query (position_attribute self) roi) = Ok (Some node) ->
     dict_get "id" node = Some i ->
     mongo_find m (edges_collection_name self) [("u", i)] = Ok cursor ->
     cursor_count cursor = Ok n ->
     fst (has_edges m roi self) = Ok (Z.ltb 0 n) /\
     MongoDb_idle (snd (has_edges m roi self)) /\
     trace (snd (has_edges m roi self))
       = trace self
           ++ [NewMongoClient (host self);
               FindOne (nodes_collection_name self)
                 (__pos_query (position_attribute self) roi);
               Find (edges_collection_name self) [("u", i)];
               ClientClose;
               CursorCount]).
Proof.
  intros Hm. split.
  - intros H1.
    assert (E : has_edges m roi self
                = (Ok false,
                   MongoDb_after
                     [NewMongoClient (host self);
                      FindOne (nodes_collection_name self)
                        (__pos_query (position_attribute self) roi);
                      ClientClose]
                     (set_handles None None None None self))).
    { unfold has_edges. unfold pbind at 1. unfold try_finally.
      unfold pbind at 1. rewrite opened_succeeds by exact Hm.
      unfold pbind, on_collection, __disconnect. cbn.
      rewrite H1. cbn. unfold MongoDb_after, record, set_handles. cbn.
      now rewrite <- ?app_assoc. }
    rewrite E. unfold MongoDb_idle. cbn. repeat split.
  - intros node i cursor n H1 Hi Hf Hn.
    assert (E : has_edges m roi self
                = (Ok (Z.ltb 0 n),
                   MongoDb_after
                     [NewMongoClient (host self);
                      FindOne (nodes_collection_name self)
                        (__pos_query (position_attribute self) roi);
                      Find (edges_collection_name self) [("u", i)];
                      ClientClose;
                      CursorCount]
                     (set_handles None None None None self))).
    { unfold has_edges. unfold pbind at 1. unfold try_finally.
      unfold pbind at 1. rewrite opened_succeeds by exact Hm.
      unfold pbind, on_collection, __disconnect, item. cbn.
      rewrite H1. cbn. rewrite Hi. cbn. rewrite Hf. cbn. rewrite Hn.
      unfold MongoDb_after, record, set_handles. cbn.
      now rewrite <- ?app_assoc. }
    rewrite E. unfold MongoDb_idle. cbn. repeat split.
Qed.

Lemma has_edges_of_first_node_witness :
  fst (has_edges MongoDb_server (MongoDb_box [0]%Z [1]%Z) MongoDb_provider)
    = Ok (Z.ltb 0 1) /\
  MongoDb_idle
    (snd (has_edges MongoDb_server (MongoDb_box [0]%Z [1]%Z)
            MongoDb_provider)) /\
  trace (snd (has_edges MongoDb_server (MongoDb_box [0]%Z [1]%Z)
                MongoDb_provider))
    = trace MongoDb_provider
        ++ [NewMongoClient (host MongoDb_provider);
            FindOne (nodes_collection_name MongoDb_provider)
              (__pos_query (position_attribute MongoDb_provider)
                 (MongoDb_box [0]%Z [1]%Z));
            Find (edges_collection_name MongoDb_provider) [("u", VInt 1)];
            ClientClose;
            CursorCount].
Proof.
  apply (proj2 (has_edges_of_first_node MongoDb_server
                  (MongoDb_box [0]%Z [1]%Z) MongoDb_provider eq_refl)
           [("id", VInt 1)] (VInt 1)
           (mkCursor (Ok [[("u", VInt 1); ("v", VInt 2)]]) (Ok 1%Z)) 1%Z);
    reflexivity.
Defined.

(** *** The queries of [read_edges] *)

Lemma firstn_add {A : Type} (a b : nat) (l : list A) :
  firstn (a + b) l = firstn a l ++ firstn b (skipn a l).
Proof.
  revert l. induction a as [|a IH]; intros l; [reflexivity|].
  destruct l as [|x l]; cbn [Nat.add firstn skipn app].
  - now rewrite firstn_nil.
  - now rewrite IH.
Qed.

Lemma chunks_firstn (l : list Value) (k : nat) :
  List.concat (map (MongoDb_chunk l) (map (fun j => j * query_size) (seq 0 k)))
    = firstn (k * query_size) l.
Proof.
  induction k as [|k IH]; [reflexivity|].
  rewrite seq_S, !map_app, concat_app, IH. cbn [map List.concat Nat.add].
  rewrite app_nil_r. unfold MongoDb_chunk.
  rewrite <- firstn_add. f_equal. lia.
Qed.

Lemma starts_reach (n : nat) :
  n <= (n + (query_size - 1)) / query_size * query_size.
Proof.
  unfold query_size.
  pose proof (Nat.div_mod_eq (n + (128 - 1)) 128) as E.
  pose proof (Nat.mod_upper_bound (n + (128 - 1)) 128) as U.
  lia.
Qed.

Lemma starts_below (n i : nat) : In i (starts n) -> i < n.
Proof.
  unfold starts. rewrite in_map_iff. intros (j & <- & Hj).
  apply in_seq in Hj. unfold query_size in *.
  pose proof (Nat.div_mod_eq (n + (128 - 1)) 128) as E.
  pose proof (Nat.mod_upper_bound (n + (128 - 1)) 128) as U.
  lia.
Qed.

(** The slices that [read_edges] asks for are the list of node ids cut into
    pieces: joined in order they give the list back. *)
Lemma chunks_cover (node_ids : list Value) :
  List.concat (map (MongoDb_chunk node_ids) (starts (List.length node_ids)))
    = node_ids.
Proof.
  unfold starts. rewrite chunks_firstn. apply firstn_all2. apply starts_reach.
Qed.

Lemma find_edges_answers (m : Mongo) (node_ids : list Value)
  (answer : Dict -> list Dict) (collection : string)
  (indices : list nat) :
  (forall q, exists c,
     mongo_find m collection q = Ok c /\ cursor_items c = Ok (answer q)) ->
  forall found self,
    edges self = Some collection ->
    find_edges m node_ids indices found self
      = (Ok (found
               ++ List.concat (map (fun i => answer (in_query node_ids i)) indices)),
         MongoDb_after
           (map (fun i => Find collection (in_query node_ids i)) indices)
           self).
Proof.
  intros H. induction indices as [|i indices IH]; intros found self He;
    cbn [find_edges map concat].
  - rewrite app_nil_r. unfold MongoDb_after. rewrite app_nil_r.
    now destruct self.
  - unfold pbind, on_collection. rewrite He.
    destruct (H (in_query node_ids i)) as (c & Hc & Hi). rewrite Hc, Hi.
    rewrite IH by exact He. rewrite <- app_assoc. f_equal.
    unfold MongoDb_after, record. cbn. now rewrite <- app_assoc.
Qed.

Lemma read_nodes_answers (m : Mongo) (roi : Roi) (self : Provider)
  (cursor : Cursor) :
  mongo_client m (host self) = None ->
  mongo_find m (nodes_collection_name self)
    (__pos_query (position_attribute self) roi) = Ok cursor ->
  read_nodes m roi self
    = (Ok cursor,
       MongoDb_after
         [Log (LogDebug "Querying nodes in %s");
          NewMongoClient (host self);
          Find (nodes_collection_name self)
            (__pos_query (position_attribute self) roi);
          ClientClose]
         (set_handles None None None None self)).
Proof.
  intros Hm Hf. unfold read_nodes, pbind, debug, try_finally.
  rewrite opened_succeeds by exact Hm.
  unfold on_collection, __disconnect. cbn. rewrite Hf.
  unfold MongoDb_after, record, set_handles. cbn.
  now rewrite <- ?app_assoc.
Qed.

(** X22: [read_edges] asks for the edges that leave the nodes of the region in
    queries of at most 128 node ids: the slices are not empty, hold at most
    128 ids each, and joined in order they are the list of the node ids, so
    every node is asked for and none twice.  What it returns is what the
    queries answer, joined in their order, and it leaves the provider
    without client and handles. *)
Theorem read_edges_queries (m : Mongo) (roi : Roi) (self : Provider)
  (cursor : Cursor) (docs : list Dict) (node_ids : list Value)
  (answer : Dict -> list Dict) :
  mongo_client m (host self) = None ->
  mongo_find m (nodes_collection_name self)
    (__pos_query (position_attribute self) roi) = Ok cursor ->
  cursor_items cursor = Ok docs ->
  ids_of docs = Ok node_ids ->
  (forall q, exists c,
     mongo_find m (edges_collection_name self) q = Ok c /\
     cursor_items c = Ok (answer q)) ->
  fst (read_edges m roi self)
    = Ok (List.concat
            (map (fun i => answer [("u", VDict [("$in", VList (MongoDb_chunk node_ids i))])])
               (starts (List.length node_ids)))) /\
  List.concat (map (MongoDb_chunk node_ids) (starts (List.length node_ids)))
    = node_ids /\
  Forall
    (fun i =>
       0 < List.length (MongoDb_chunk node_ids i) <= 128)
    (starts (List.length node_ids)) /\
  MongoDb_idle (snd (read_edges m roi self)).
Proof.
  intros Hm Hf Hi Hids He.
  assert (E : exists self',
              read_edges m roi self
                = (Ok (List.concat
                         (map (fun i => answer (in_query node_ids i))
                            (starts (List.length node_ids)))),
                   self') /\
              MongoDb_idle self').
  { unfold read_edges. unfold pbind at 1.
    rewrite (read_nodes_answers m roi self cursor Hm Hf).
    rewrite Hi, Hids.
    unfold pbind at 1. unfold debug at 1.
    unfold pbind at 1. unfold debug at 1.
    unfold try_finally. unfold pbind at 1.
    rewrite opened_succeeds by exact Hm.
    unfold pbind at 1.
    rewrite (find_edges_answers m node_ids answer
               (edges_collection_name self)) by (exact He || reflexivity).
    unfold pbind, debug, __disconnect. cbn -[starts].
    eexists. split; [reflexivity|].
    unfold MongoDb_idle. cbn -[starts]. repeat split. }
  destruct E as (self' & E & Hidle). rewrite E. cbn [fst snd].
  split; [reflexivity|]. split; [apply chunks_cover|].
  split; [|exact Hidle].
  apply Forall_forall. intros i Hin. apply starts_below in Hin.
  unfold MongoDb_chunk. rewrite length_firstn, length_skipn.
  unfold query_size. lia.
Qed.

Lemma read_edges_queries_witness :
  fst (read_edges MongoDb_server (MongoDb_box [0]%Z [1]%Z) MongoDb_provider)
    = Ok (List.concat
            (map (fun i =>
                    (fun _ => [[("u", VInt 1); ("v", VInt 2)]])
                      [("u", VDict [("$in",
                                     VList (MongoDb_chunk [VInt 1; VInt 2] i))])])
               (starts (List.length [VInt 1; VInt 2])))) /\
  List.concat (map (MongoDb_chunk [VInt 1; VInt 2])
            (starts (List.length [VInt 1; VInt 2])))
    = [VInt 1; VInt 2] /\
  Forall
    (fun i => 0 < List.length (MongoDb_chunk [VInt 1; VInt 2] i) <= 128)
    (starts (List.length [VInt 1; VInt 2])) /\
  MongoDb_idle
    (snd (read_edges MongoDb_server (MongoDb_box [0]%Z [1]%Z)
            MongoDb_provider)).
Proof.
  apply (read_edges_queries MongoDb_server (MongoDb_box [0]%Z [1]%Z)
           MongoDb_provider
           (mkCursor (Ok [[("id", VInt 1)]; [("id", VInt 2)]]) (Ok 2%Z))
           [[("id", VInt 1)]; [("id", VInt 2)]]
           [VInt 1; VInt 2]
           (fun _ => [[("u", VInt 1); ("v", VInt 2)]])).
  - reflexivity.
  - reflexivity.
  - reflexivity.
  - reflexivity.
  - intros q. eexists. split; reflexivity.
Defined.
